(** * ThreadGram scraper: grouping, size de-duplication and scroll termination

    A shallow embedding of [src/scraper.py].  The file models

    - the two regular expressions used as identity mechanism
      ([re.search(r'/(\d+)_(\d{9})', url)] and
      [re.search(r'/(\d+_\d+_\d+_n)', url)]),
    - Python dictionaries as insertion-ordered association lists,
    - [dedupe_sizes] and [group_images],
    - the scroll loop of [scrape_threads] as a fold over scripted
      per-iteration extraction batches,
    - the result record that [scrape_threads] hands to [json.dump].

    Strings are [string] (sequences of 8-bit characters).  On that range
    Python's [\d] matches exactly the characters '0'..'9'. *)

From Stdlib Require Import String Ascii List Arith Lia Bool Permutation.
From Stdlib Require Import DecimalString DecimalNat.
Import ListNotations.

Open Scope string_scope.
Open Scope list_scope.

(** ** Option sequencing, used to write the matchers piece by piece *)

Definition obind {A B : Type} (o : option A) (k : A -> option B) : option B :=
  match o with
  | Some a => k a
  | None => None
  end.

Notation "x <- e ;; k" := (obind e (fun x => k))
  (at level 61, e at next level, right associativity).
Notation "' p <- e ;; k" := (obind e (fun p => k))
  (at level 61, p pattern, e at next level, right associativity).

(** ** Regular-expression pieces *)

Module Re.

(** [\d] *)
Definition is_digit (c : ascii) : bool :=
  (48 <=? nat_of_ascii c)%nat && (nat_of_ascii c <=? 57)%nat.

(** All characters of [s] are digits. *)
Fixpoint all_digits (s : string) : bool :=
  match s with
  | EmptyString => true
  | String c s' => is_digit c && all_digits s'
  end.

(** The longest run of digits at the head of [s], and what follows it. *)
Fixpoint span_digits (s : string) : string * string :=
  match s with
  | EmptyString => (EmptyString, EmptyString)
  | String c s' =>
      if is_digit c
      then let (d, r) := span_digits s' in (String c d, r)
      else (EmptyString, s)
  end.

(** [\d+] when the next piece of the pattern is a literal that is not a
    digit: the greedy run is the only one that can be followed by it, so
    no shorter run ever has to be tried. *)
Definition digits1 (s : string) : option (string * string) :=
  match span_digits s with
  | (EmptyString, _) => None
  | (d, r) => Some (d, r)
  end.

(** [\d{n}] *)
Fixpoint digitsN (n : nat) (s : string) : option (string * string) :=
  match n with
  | 0 => Some (EmptyString, s)
  | S n' =>
      match s with
      | EmptyString => None
      | String c s' =>
          if is_digit c
          then '(d, r) <- digitsN n' s' ;; Some (String c d, r)
          else None
      end
  end.

(** A literal character. *)
Definition lit (c : ascii) (s : string) : option string :=
  match s with
  | EmptyString => None
  | String c' s' => if Ascii.eqb c c' then Some s' else None
  end.

(** [re.search]: the match at the leftmost position where the pattern
    matches. *)
Fixpoint search {A : Type} (match_at : string -> option A) (s : string)
  : option A :=
  match match_at s with
  | Some m => Some m
  | None =>
      match s with
      | EmptyString => None
      | String _ s' => search match_at s'
      end
  end.

(** [needle in hay] *)
Fixpoint contains (needle hay : string) : bool :=
  String.prefix needle hay ||
  match hay with
  | EmptyString => false
  | String _ hay' => contains needle hay'
  end.

End Re.

(** [r'/(\d+)_(\d{9})'] anchored at the head of [s]: groups 1 and 2. *)
Definition group_pattern_at (s : string) : option (string * string) :=
  r0 <- Re.lit "/" s ;;
  '(g1, r1) <- Re.digits1 r0 ;;
  r2 <- Re.lit "_" r1 ;;
  '(g2, _) <- Re.digitsN 9 r2 ;;
  Some (g1, g2).

(** [match = re.search(r'/(\d+)_(\d{9})', url)]; [match.group(2)]. *)
Definition post_id_of (url : string) : option string :=
  option_map snd (Re.search group_pattern_at url).

(** [r'/(\d+_\d+_\d+_n)'] anchored at the head of [s]: group 1. *)
Definition image_pattern_at (s : string) : option string :=
  r0 <- Re.lit "/" s ;;
  '(d1, r1) <- Re.digits1 r0 ;;
  r2 <- Re.lit "_" r1 ;;
  '(d2, r3) <- Re.digits1 r2 ;;
  r4 <- Re.lit "_" r3 ;;
  '(d3, r5) <- Re.digits1 r4 ;;
  r6 <- Re.lit "_" r5 ;;
  _ <- Re.lit "n" r6 ;;
  Some (d1 ++ "_" ++ d2 ++ "_" ++ d3 ++ "_n")%string.

(** [match = re.search(r'/(\d+_\d+_\d+_n)', url)]; [match.group(1)]. *)
Definition img_id_of (url : string) : option string :=
  Re.search image_pattern_at url.

(** The priority chain of [dedupe_sizes]. *)
Definition priority_of (url : string) : nat :=
  if Re.contains "s150x150" url then 1
  else if Re.contains "s320x320" url then 2
  else if Re.contains "s640x640" url then 3
  else 4.

(** ** Python dictionaries with string keys

    A [dict] keeps its keys in insertion order, and assigning to a key
    that is present keeps the key's position. *)

Section Dict.
Context {V : Type}.

Definition dict : Type := list (string * V).

(** [d.get(k)]; [k in d] is [dict_get k d <> None]. *)
Fixpoint dict_get (k : string) (d : dict) : option V :=
  match d with
  | [] => None
  | (k', v) :: d' => if String.eqb k k' then Some v else dict_get k d'
  end.

(** [d[k] = v] *)
Fixpoint dict_set (k : string) (v : V) (d : dict) : dict :=
  match d with
  | [] => [(k, v)]
  | (k', v') :: d' =>
      if String.eqb k k' then (k', v) :: d' else (k', v') :: dict_set k v d'
  end.

Definition dict_keys (d : dict) : list string := map fst d.

(** [d.values()] *)
Definition dict_values (d : dict) : list V := map snd d.
End Dict.

Arguments dict V : clear implicits.

(** [d[k].append(x)] for a key that is present. *)
Fixpoint dict_append {A : Type} (k : string) (x : A) (d : dict (list A))
  : dict (list A) :=
  match d with
  | [] => []
  | (k', v) :: d' =>
      if String.eqb k k' then (k', v ++ [x]) :: d'
      else (k', v) :: dict_append k x d'
  end.

(** ** [dedupe_sizes] *)

(** One iteration of [for url in urls]. *)
Definition dedupe_step (seen_ids : dict (string * nat)) (url : string)
  : dict (string * nat) :=
  match img_id_of url with
  | Some img_id =>
      let priority := priority_of url in
      match dict_get img_id seen_ids with
      | None => dict_set img_id (url, priority) seen_ids
      | Some (_, seen_priority) =>
          if (seen_priority <? priority)%nat
          then dict_set img_id (url, priority) seen_ids
          else seen_ids
      end
  | None => dict_set url (url, 0) seen_ids
  end.

Definition dedupe_seen (urls : list string) : dict (string * nat) :=
  fold_left dedupe_step urls [].

Definition dedupe_sizes (urls : list string) : list string :=
  map fst (dict_values (dedupe_seen urls)).

(** ** [group_images] *)

(** [str(n)] *)
Definition str_of_nat (n : nat) : string :=
  NilEmpty.string_of_uint (Nat.to_uint n).

(** [f"single_{n}"] *)
Definition single_key (n : nat) : string :=
  ("single_" ++ str_of_nat n)%string.

(** One iteration of the first loop, [for url in images]. *)
Definition group_step (groups : dict (list string)) (url : string)
  : dict (list string) :=
  match post_id_of url with
  | Some post_id =>
      let groups1 :=
        match dict_get post_id groups with
        | None => dict_set post_id [] groups
        | Some _ => groups
        end in
      dict_append post_id url groups1
  | None => dict_set (single_key (List.length groups)) [url] groups
  end.

(** The dictionary [groups] after the first loop. *)
Definition build_groups (images : list string) : dict (list string) :=
  fold_left group_step images [].

(** One iteration of the second loop, [for post_id, urls in groups.items()]. *)
Definition post_step (posts : list (list string))
  (item : string * list string) : list (list string) :=
  let unique_images := dedupe_sizes (snd item) in
  match unique_images with
  | [] => posts
  | _ :: _ => posts ++ [unique_images]
  end.

Definition group_images (images : list string) : list (list string) :=
  fold_left post_step (build_groups images) [].

(** ** The scroll loop of [scrape_threads]

    The browser is an external collaborator.  Its answers are scripted:
    [page i] is what [page.evaluate] returns in iteration [i] of
    [for i in range(max_scrolls)]. *)

(** [all_images.add(img)], the set kept as a duplicate-free list. *)
Definition set_add (img : string) (s : list string) : list string :=
  if existsb (String.eqb img) s then s else s ++ [img].

(** [for img in images: all_images.add(img)] *)
Definition add_all (images : list string) (s : list string) : list string :=
  fold_left (fun acc img => set_add img acc) images s.

Record loop_state : Type := {
  all_images : list string;
  last_count : nat;
  no_new_count : nat;
  iterations : nat;   (* loop bodies entered so far *)
  scrolls : nat       (* [window.scrollBy] commands issued so far *)
}.

Definition init_state : loop_state :=
  {| all_images := []; last_count := 0; no_new_count := 0;
     iterations := 0; scrolls := 0 |}.

Inductive flow : Type :=
| Continue (st : loop_state)
| Break (st : loop_state).

(** The body of the loop, lines 40 to 69. *)
Definition loop_body (images : list string) (st : loop_state) : flow :=
  let all' := add_all images (all_images st) in
  let current_count := List.length all' in
  if (current_count =? last_count st)%nat then
    let no_new := S (no_new_count st) in
    if (5 <=? no_new)%nat then
      Break {| all_images := all'; last_count := last_count st;
               no_new_count := no_new;
               iterations := S (iterations st); scrolls := scrolls st |}
    else
      Continue {| all_images := all'; last_count := current_count;
                  no_new_count := no_new;
                  iterations := S (iterations st);
                  scrolls := S (scrolls st) |}
  else
    Continue {| all_images := all'; last_count := current_count;
                no_new_count := 0;
                iterations := S (iterations st);
                scrolls := S (scrolls st) |}.

(** [for i in range(max_scrolls)], from index [i] with [remaining]
    indices left; the boolean tells whether the loop left through
    [break]. *)
Fixpoint scroll_loop (page : nat -> list string) (i remaining : nat)
  (st : loop_state) : loop_state * bool :=
  match remaining with
  | 0 => (st, false)
  | S remaining' =>
      match loop_body (page i) st with
      | Break st' => (st', true)
      | Continue st' => scroll_loop page (S i) remaining' st'
      end
  end.

Definition collect (page : nat -> list string) (max_scrolls : nat)
  : loop_state * bool :=
  scroll_loop page 0 max_scrolls init_state.

(** The accumulated set after the first [n] scripted batches, whatever the
    loop does: the fold the loop performs. *)
Fixpoint accumulated (page : nat -> list string) (n : nat) : list string :=
  match n with
  | 0 => []
  | S n' => add_all (page n') (accumulated page n')
  end.

(** Size of the accumulated set after [n] iterations. *)
Definition count_after (page : nat -> list string) (n : nat) : nat :=
  List.length (accumulated page n).

(** Iteration number [n] (counted from 1) did not grow the set. *)
Definition stagnant (page : nat -> list string) (n : nat) : Prop :=
  count_after page n = count_after page (n - 1).

(** The five iterations after iteration number [s] (from 0: the first five)
    leave the set as it is. *)
Definition stagnates_from (page : nat -> list string) (s : nat) : Prop :=
  forall n, s < n <= s + 5 -> stagnant page n.

(** ** The result record of [scrape_threads] *)

#[local] Set Warnings "-register-all".

Inductive json : Type :=
| JString (s : string)
| JNumber (n : nat)
| JArray (items : list json)
| JObject (fields : list (string * json)).

(** The dictionary [result], lines 84 to 90.  [scraped_at] stands for
    [datetime.now().isoformat()] and [images] for [list(all_images)]. *)
Definition scrape_result (username scraped_at : string)
  (images : list string) : dict json :=
  let posts := group_images images in
  [ ("username", JString username);
    ("scraped_at", JString scraped_at);
    ("total_images", JNumber (List.length images));
    ("total_posts", JNumber (List.length posts));
    ("posts", JArray (map (fun post => JArray (map JString post)) posts)) ].

(** ** Vocabulary of the statements *)

(** The key under which [dedupe_sizes] files a URL. *)
Definition key_of (url : string) : string :=
  match img_id_of url with
  | Some img_id => img_id
  | None => url
  end.

Definition nonempty {A : Type} (l : list A) : bool :=
  match l with
  | [] => false
  | _ :: _ => true
  end.

(** The posts that contain [url]. *)
Definition posts_containing (url : string) (posts : list (list string))
  : list (list string) :=
  filter (fun post => existsb (String.eqb url) post) posts.

(** No "/" of [s] is followed by a digit inside [s]: neither pattern can
    start matching inside [s]. *)
Definition starts_with_digit (s : string) : bool :=
  match s with
  | EmptyString => false
  | String c _ => Re.is_digit c
  end.

Fixpoint no_slash_digit (s : string) : bool :=
  match s with
  | EmptyString => true
  | String c s' =>
      negb (Ascii.eqb c "/" && starts_with_digit s') && no_slash_digit s'
  end.

(** Each item of [seen_ids] is filed under the key of the URL it holds. *)
Definition entry_ok (item : string * (string * nat)) : Prop :=
  key_of (fst (snd item)) = fst item.

Definition seen_ok (seen_ids : dict (string * nat)) : Prop :=
  NoDup (dict_keys seen_ids) /\ Forall entry_ok seen_ids.

(** An item of [groups] is a non-empty list that is either filed under the
    PostID of all its URLs, or a single URL without PostID filed under a
    fallback key whose number is below [n]. *)
Definition group_ok (n : nat) (item : string * list string) : Prop :=
  snd item <> [] /\
  ((forall url, In url (snd item) -> post_id_of url = Some (fst item)) \/
   (exists m url,
      fst item = single_key m /\ m < n /\ snd item = [url] /\
      post_id_of url = None)).

Definition groups_ok (images : list string) (groups : dict (list string))
  : Prop :=
  NoDup (dict_keys groups) /\
  Forall (group_ok (List.length groups)) groups /\
  Permutation (concat (dict_values groups)) images.

(** [s] holds a slash. *)
Fixpoint has_slash (s : string) : bool :=
  match s with
  | EmptyString => false
  | String c s' => Ascii.eqb c "/" || has_slash s'
  end.

(** [img_id] is filed with a URL other than [late], at a priority not
    below that of [late]. *)
Definition holds_against (img_id late : string) (seen_ids : dict (string * nat))
  : Prop :=
  exists kept priority,
    dict_get img_id seen_ids = Some (kept, priority) /\
    priority_of late <= priority /\ kept <> late.

(** Number of iterations in a row, ending with iteration number [n], that
    did not grow the set: the value of [no_new_count] after [n] iterations. *)
Fixpoint run_length (page : nat -> list string) (n : nat) : nat :=
  match n with
  | 0 => 0
  | S n' =>
      if (count_after page (S n') =? count_after page n')%nat
      then S (run_length page n')
      else 0
  end.

(** The loop state after [n] iterations none of which left the loop. *)
Definition state_after (page : nat -> list string) (n : nat) : loop_state :=
  {| all_images := accumulated page n;
     last_count := count_after page n;
     no_new_count := run_length page n;
     iterations := n;
     scrolls := n |}.

(** The loop state when iteration number [S n] leaves through [break]. *)
Definition state_at_break (page : nat -> list string) (n : nat) : loop_state :=
  {| all_images := accumulated page (S n);
     last_count := count_after page n;
     no_new_count := run_length page (S n);
     iterations := S n;
     scrolls := n |}.

(** A script: two iterations that each bring a new URL, then nothing new. *)
Definition example_page (i : nat) : list string :=
  match i with
  | 0 => ["https://cdn.example/v/1_123456789_2_n.jpg"]
  | 1 => ["https://cdn.example/v/1_123456789_2_n.jpg";
          "https://cdn.example/v/3_987654321_4_n.jpg"]
  | _ => ["https://cdn.example/v/3_987654321_4_n.jpg"]
  end.

(** ** Vocabulary of the further properties *)

(** [url] has the PostID [post_id]. *)
Definition has_post_id (post_id url : string) : bool :=
  match post_id_of url with
  | Some k => String.eqb k post_id
  | None => false
  end.

(** The URLs of [images] with the PostID [post_id], in the order of
    [images]. *)
Definition with_post_id (post_id : string) (images : list string)
  : list string :=
  filter (has_post_id post_id) images.

(** The PostIDs met in [images], one per URL that has one. *)
Definition post_ids (images : list string) : list string :=
  flat_map (fun url => match post_id_of url with
                       | Some k => [k]
                       | None => []
                       end) images.

(** The URLs of [images] without PostID. *)
Definition unmatched (images : list string) : list string :=
  filter (fun url => match post_id_of url with
                     | Some _ => false
                     | None => true
                     end) images.

(** The test of the extraction script, lines 42 to 47:
    [src.includes('cdninstagram.com') && !src.includes('s150x150') &&
     !src.includes('s64x64') && !src.includes('s32x32')]. *)
Definition keep_src (src : string) : bool :=
  Re.contains "cdninstagram.com" src &&
  negb (Re.contains "s150x150" src) &&
  negb (Re.contains "s64x64" src) &&
  negb (Re.contains "s32x32" src).

(** The extraction script on the [src] attributes of the page's [img]
    elements. *)
Definition extract_images (srcs : list string) : list string :=
  filter keep_src srcs.

(** The collector on a scripted page given by its [img] sources:
    [dom i] are the sources present in iteration [i]. *)
Definition collect_from_dom (dom : nat -> list string) (max_scrolls : nat)
  : loop_state * bool :=
  collect (fun i => extract_images (dom i)) max_scrolls.

(** [sys.argv[1].replace("@", "")], line 161: every "@" is taken out. *)
Fixpoint strip_at (s : string) : string :=
  match s with
  | EmptyString => EmptyString
  | String c s' =>
      if Ascii.eqb c "@" then strip_at s' else String c (strip_at s')
  end.

(** [s] holds the character [c]. *)
Fixpoint has_char (c : ascii) (s : string) : bool :=
  match s with
  | EmptyString => false
  | String c' s' => Ascii.eqb c' c || has_char c s'
  end.

(** [scrape_threads], lines 18 to 98, on a scripted page: the loop, then
    [group_images(list(all_images))], then the record.  [listing] stands
    for [list(...)] on a set, which lists the elements in an order of
    Python's choosing. *)
Definition scrape_threads (page : nat -> list string)
  (listing : list string -> list string)
  (username scraped_at : string) (max_scrolls : nat) : dict json :=
  let (st, _) := collect page max_scrolls in
  scrape_result username scraped_at (listing (all_images st)).

(** * Properties *)

(** ** Dictionaries *)

Section DictFacts.
Context {V : Type}.
Implicit Types (d : dict V) (k : string) (v : V).

Lemma dict_get_None_keys k d :
  dict_get k d = None <-> ~ In k (dict_keys d).
Proof.
  induction d as [|[k' v'] d IH]; simpl.
  - tauto.
  - destruct (String.eqb_spec k k') as [->|Hne].
    + split; [discriminate | intros H; exfalso; apply H; now left].
    + rewrite IH. split; intros H; [intros [E|E]; [congruence|tauto] | tauto].
Qed.

Lemma dict_get_In k v d : dict_get k d = Some v -> In (k, v) d.
Proof.
  induction d as [|[k' v'] d IH]; simpl; [discriminate|].
  destruct (String.eqb_spec k k') as [->|Hne].
  - intros [= ->]. now left.
  - intros H. right. auto.
Qed.

Lemma dict_In_get k v d :
  NoDup (dict_keys d) -> In (k, v) d -> dict_get k d = Some v.
Proof.
  induction d as [|[k' v'] d IH]; simpl; [tauto|].
  intros Hnd [E|Hin].
  - injection E as -> ->. now rewrite String.eqb_refl.
  - apply NoDup_cons_iff in Hnd as [Hk Hnd].
    destruct (String.eqb_spec k k') as [->|Hne].
    + exfalso. apply Hk. change k' with (fst (k', v)). now apply in_map.
    + auto.
Qed.

(** Assigning to an absent key appends the item. *)
Lemma dict_set_absent k v d :
  dict_get k d = None -> dict_set k v d = d ++ [(k, v)].
Proof.
  induction d as [|[k' v'] d IH]; simpl; [reflexivity|].
  destruct (String.eqb_spec k k'); [discriminate|].
  intros H. now rewrite IH.
Qed.

(** Assigning to a present key replaces the value where it stands. *)
Lemma dict_set_present k v v0 d :
  dict_get k d = Some v0 ->
  exists d1 d2,
    d = d1 ++ (k, v0) :: d2 /\ dict_set k v d = d1 ++ (k, v) :: d2.
Proof.
  induction d as [|[k' v'] d IH]; simpl; [discriminate|].
  destruct (String.eqb_spec k k') as [->|Hne].
  - intros [= ->]. now exists [], d.
  - intros H. destruct (IH H) as (d1 & d2 & -> & ->).
    now exists ((k', v') :: d1), d2.
Qed.

Lemma dict_keys_app d1 d2 :
  dict_keys (d1 ++ d2) = dict_keys d1 ++ dict_keys d2.
Proof. apply map_app. Qed.

Lemma dict_values_app d1 d2 :
  dict_values (d1 ++ d2) = dict_values d1 ++ dict_values d2.
Proof. apply map_app. Qed.

(** The key set after an assignment. *)
Lemma dict_keys_set k v d :
  dict_keys (dict_set k v d) =
  match dict_get k d with
  | Some _ => dict_keys d
  | None => dict_keys d ++ [k]
  end.
Proof.
  induction d as [|[k' v'] d IH]; simpl; [reflexivity|].
  destruct (String.eqb_spec k k') as [->|Hne]; simpl; [reflexivity|].
  rewrite IH. now destruct (dict_get k d).
Qed.

Lemma dict_set_NoDup k v d :
  NoDup (dict_keys d) -> NoDup (dict_keys (dict_set k v d)).
Proof.
  intros Hnd. rewrite dict_keys_set.
  destruct (dict_get k d) eqn:E; [assumption|].
  apply dict_get_None_keys in E.
  apply NoDup_app; [assumption | repeat constructor; simpl; tauto |].
  intros a Ha [<-|[]]. contradiction.
Qed.

Lemma dict_set_length k v d :
  List.length d <= List.length (dict_set k v d) <= S (List.length d).
Proof.
  induction d as [|[k' v'] d IH]; simpl; [lia|].
  destruct (String.eqb k k'); simpl; lia.
Qed.

(** What an assignment leaves in the dictionary. *)
Lemma dict_set_In k v d k1 v1 :
  In (k1, v1) (dict_set k v d) -> (k1, v1) = (k, v) \/ In (k1, v1) d.
Proof.
  induction d as [|[k' v'] d IH]; simpl.
  - intros [E|[]]. now left.
  - destruct (String.eqb_spec k k') as [->|Hne]; simpl.
    + intros [E|H]; [left; congruence | right; now right].
    + intros [E|H]; [right; now left|].
      destruct (IH H); [now left | right; now right].
Qed.

Lemma dict_get_set_same k v d : dict_get k (dict_set k v d) = Some v.
Proof.
  induction d as [|[k' v'] d IH]; simpl.
  - now rewrite String.eqb_refl.
  - destruct (String.eqb_spec k k') as [->|Hne]; simpl.
    + now rewrite String.eqb_refl.
    + destruct (String.eqb_spec k k'); [contradiction | assumption].
Qed.

Lemma dict_get_set_other k k1 v d :
  k1 <> k -> dict_get k1 (dict_set k v d) = dict_get k1 d.
Proof.
  intros Hne. induction d as [|[k' v'] d IH]; simpl.
  - destruct (String.eqb_spec k1 k); [contradiction | reflexivity].
  - destruct (String.eqb_spec k k') as [->|Hne']; simpl.
    + destruct (String.eqb_spec k1 k'); [contradiction | reflexivity].
    + now rewrite IH.
Qed.
End DictFacts.

Lemma dict_append_present {A : Type} k (x : A) g (d : dict (list A)) :
  dict_get k d = Some g ->
  exists d1 d2,
    d = d1 ++ (k, g) :: d2 /\ dict_append k x d = d1 ++ (k, g ++ [x]) :: d2.
Proof.
  induction d as [|[k' v'] d IH]; simpl; [discriminate|].
  destruct (String.eqb_spec k k') as [->|Hne].
  - intros [= ->]. now exists [], d.
  - intros H. destruct (IH H) as (d1 & d2 & -> & ->).
    now exists ((k', v') :: d1), d2.
Qed.

(** ** The matchers *)

Module ReFacts.
Import Re.

Lemma span_digits_spec s d r :
  span_digits s = (d, r) ->
  s = (d ++ r)%string /\ all_digits d = true /\ starts_with_digit r = false.
Proof.
  revert d r. induction s as [|c s IH]; simpl; intros d r.
  - intros [= <- <-]. auto.
  - destruct (is_digit c) eqn:Hc.
    + destruct (span_digits s) as [d' r'] eqn:E. intros [= <- <-].
      destruct (IH _ _ eq_refl) as (-> & Hd & Hr).
      simpl. rewrite Hc, Hd. auto.
    + intros [= <- <-]. simpl. auto.
Qed.

Lemma span_digits_app d r :
  all_digits d = true -> starts_with_digit r = false ->
  span_digits (d ++ r) = (d, r).
Proof.
  intros Hd Hr. induction d as [|c d IH]; simpl in *.
  - destruct r as [|c r]; simpl in *; [reflexivity | now rewrite Hr].
  - apply andb_true_iff in Hd as [Hc Hd]. now rewrite Hc, IH.
Qed.

(** [digits1] is [\d+] followed by something that is not a digit. *)
Lemma digits1_spec s d r :
  digits1 s = Some (d, r) <->
  s = (d ++ r)%string /\ d <> EmptyString /\ all_digits d = true /\
  starts_with_digit r = false.
Proof.
  unfold digits1. split.
  - destruct (span_digits s) as [d' r'] eqn:E.
    apply span_digits_spec in E as (-> & Hd & Hr).
    destruct d'; [discriminate|]. intros [= <- <-].
    repeat split; auto; discriminate.
  - intros (-> & Hne & Hd & Hr). rewrite span_digits_app by assumption.
    destruct d; [contradiction | reflexivity].
Qed.

Lemma digits1_no_digit s : starts_with_digit s = false -> digits1 s = None.
Proof.
  unfold digits1. destruct s as [|c s]; simpl; [reflexivity|].
  now intros ->.
Qed.

(** [digitsN n] is [\d{n}]. *)
Lemma digitsN_spec n s d r :
  digitsN n s = Some (d, r) <->
  s = (d ++ r)%string /\ String.length d = n /\ all_digits d = true.
Proof.
  revert s d r. induction n as [|n IH]; intros s d r; simpl.
  - split.
    + intros [= <- <-]. auto.
    + intros (-> & Hl & _). destruct d; [reflexivity | discriminate].
  - split.
    + destruct s as [|c s]; [discriminate|].
      destruct (is_digit c) eqn:Hc; [|discriminate].
      destruct (digitsN n s) as [[d' r']|] eqn:E; simpl; [|discriminate].
      intros [= <- <-]. apply IH in E as (-> & Hl & Hd).
      simpl. rewrite Hc, Hd, Hl. auto.
    + intros (-> & Hl & Hd). destruct d as [|c d]; [discriminate|].
      simpl in *. apply andb_true_iff in Hd as [Hc Hd]. rewrite Hc.
      injection Hl as Hl.
      assert (E : digitsN n (d ++ r) = Some (d, r)) by (apply IH; auto).
      now rewrite E.
Qed.

Lemma lit_spec c s r : lit c s = Some r <-> s = String c r.
Proof.
  unfold lit. destruct s as [|c' s]; [split; discriminate|].
  destruct (Ascii.eqb_spec c c') as [->|Hne]; split.
  - now intros [= ->].
  - now intros [= ->].
  - discriminate.
  - intros [= <- <-]. contradiction.
Qed.

(** A successful search matched at the head of some suffix. *)
Lemma search_Some {A : Type} (f : string -> option A) s m :
  search f s = Some m ->
  exists pre suf, s = (pre ++ suf)%string /\ f suf = Some m.
Proof.
  induction s as [|c s IH]; simpl.
  - destruct (f EmptyString) eqn:E; [|discriminate].
    intros [= <-]. now exists EmptyString, EmptyString.
  - destruct (f (String c s)) eqn:E.
    + intros [= <-]. now exists EmptyString, (String c s).
    + intros H. destruct (IH H) as (pre & suf & -> & Hf).
      now exists (String c pre), suf.
Qed.

(** The search is the leftmost match: no earlier suffix matches. *)
Lemma search_leftmost {A : Type} (f : string -> option A) pre suf :
  (forall p1 p2, pre = (p1 ++ p2)%string -> p2 <> EmptyString ->
                 f (p2 ++ suf)%string = None) ->
  search f (pre ++ suf) = search f suf.
Proof.
  induction pre as [|c pre IH]; intros H; [reflexivity|].
  assert (E : f (String c pre ++ suf)%string = None)
    by (apply (H EmptyString (String c pre) eq_refl); discriminate).
  simpl in *. rewrite E.
  apply IH. intros p1 p2 -> Hne. now apply (H (String c p1) p2).
Qed.

Lemma search_None {A : Type} (f : string -> option A) s :
  search f s = None ->
  forall pre suf, s = (pre ++ suf)%string -> f suf = None.
Proof.
  induction s as [|c s IH]; simpl.
  - destruct (f EmptyString) eqn:E; [discriminate|].
    intros _ pre suf H. destruct pre; [|discriminate].
    simpl in H. now subst.
  - destruct (f (String c s)) eqn:E; [discriminate|].
    intros H pre suf Hs. destruct pre as [|c' pre]; simpl in Hs.
    + now subst.
    + injection Hs as -> ->. now apply (IH H pre).
Qed.
End ReFacts.

(** [r'/(\d+)_(\d{9})'] at the head of [s], said with the pattern's words:
    a slash, a non-empty run of digits, an underscore, nine digits. *)
Lemma group_pattern_at_spec s g1 g2 :
  group_pattern_at s = Some (g1, g2) <->
  exists rest,
    s = ("/" ++ g1 ++ "_" ++ g2 ++ rest)%string /\
    g1 <> EmptyString /\ Re.all_digits g1 = true /\
    String.length g2 = 9 /\ Re.all_digits g2 = true.
Proof.
  unfold group_pattern_at. split.
  - destruct (Re.lit "/" s) as [r0|] eqn:E0; cbn [obind]; [|discriminate].
    apply (proj1 (ReFacts.lit_spec _ _ _)) in E0; subst.
    destruct (Re.digits1 r0) as [[d1 r1]|] eqn:E1; cbn [obind]; [|discriminate].
    apply (proj1 (ReFacts.digits1_spec _ _ _)) in E1 as (-> & Hne & Hd & _).
    destruct (Re.lit "_" r1) as [r2|] eqn:E2; cbn [obind]; [|discriminate].
    apply (proj1 (ReFacts.lit_spec _ _ _)) in E2; subst.
    destruct (Re.digitsN 9 r2) as [[d2 r3]|] eqn:E3; cbn [obind]; [|discriminate].
    apply (proj1 (ReFacts.digitsN_spec _ _ _ _)) in E3 as (-> & Hl & Hd2).
    intros [= <- <-]. exists r3. auto.
  - intros (rest & -> & Hne & Hd & Hl & Hd2).
    assert (E1 : Re.digits1 (g1 ++ String "_" (g2 ++ rest))
                 = Some (g1, String "_" (g2 ++ rest)%string))
      by (apply ReFacts.digits1_spec; auto).
    assert (E3 : Re.digitsN 9 (g2 ++ rest) = Some (g2, rest))
      by (apply ReFacts.digitsN_spec; auto).
    cbn [append Re.lit obind Ascii.eqb Bool.eqb]. rewrite E1.
    cbn [append Re.lit obind Ascii.eqb Bool.eqb]. now rewrite E3.
Qed.

(** A PostID is nine digits. *)
Lemma post_id_shape url post_id :
  post_id_of url = Some post_id ->
  String.length post_id = 9 /\ Re.all_digits post_id = true.
Proof.
  unfold post_id_of.
  destruct (Re.search group_pattern_at url) as [[g1 g2]|] eqn:E;
    simpl; [|discriminate].
  intros [= <-].
  apply ReFacts.search_Some in E as (pre & suf & _ & E).
  apply (proj1 (group_pattern_at_spec _ _ _)) in E as (rest & _ & _ & _ & Hl & Hd). auto.
Qed.

(** [r'/(\d+_\d+_\d+_n)'] at the head of [s], said with the pattern's
    words: a slash, three non-empty runs of digits each followed by an
    underscore, and the letter n; the group is all of it but the slash. *)
Lemma image_pattern_at_spec s img_id :
  image_pattern_at s = Some img_id <->
  exists d1 d2 d3 rest,
    s = ("/" ++ d1 ++ "_" ++ d2 ++ "_" ++ d3 ++ "_n" ++ rest)%string /\
    img_id = (d1 ++ "_" ++ d2 ++ "_" ++ d3 ++ "_n")%string /\
    (d1 <> EmptyString /\ Re.all_digits d1 = true) /\
    (d2 <> EmptyString /\ Re.all_digits d2 = true) /\
    (d3 <> EmptyString /\ Re.all_digits d3 = true).
Proof.
  unfold image_pattern_at. split.
  - destruct (Re.lit "/" s) as [r0|] eqn:E0; cbn [obind]; [|discriminate].
    apply (proj1 (ReFacts.lit_spec _ _ _)) in E0; subst.
    destruct (Re.digits1 r0) as [[d1 r1]|] eqn:E1; cbn [obind];
      [|discriminate].
    apply (proj1 (ReFacts.digits1_spec _ _ _)) in E1 as (-> & Hn1 & Hd1 & _).
    destruct (Re.lit "_" r1) as [r2|] eqn:E2; cbn [obind]; [|discriminate].
    apply (proj1 (ReFacts.lit_spec _ _ _)) in E2; subst.
    destruct (Re.digits1 r2) as [[d2 r3]|] eqn:E3; cbn [obind];
      [|discriminate].
    apply (proj1 (ReFacts.digits1_spec _ _ _)) in E3 as (-> & Hn2 & Hd2 & _).
    destruct (Re.lit "_" r3) as [r4|] eqn:E4; cbn [obind]; [|discriminate].
    apply (proj1 (ReFacts.lit_spec _ _ _)) in E4; subst.
    destruct (Re.digits1 r4) as [[d3 r5]|] eqn:E5; cbn [obind];
      [|discriminate].
    apply (proj1 (ReFacts.digits1_spec _ _ _)) in E5 as (-> & Hn3 & Hd3 & _).
    destruct (Re.lit "_" r5) as [r6|] eqn:E6; cbn [obind]; [|discriminate].
    apply (proj1 (ReFacts.lit_spec _ _ _)) in E6; subst.
    destruct (Re.lit "n" r6) as [r7|] eqn:E7; cbn [obind]; [|discriminate].
    apply (proj1 (ReFacts.lit_spec _ _ _)) in E7; subst.
    intros [= <-]. exists d1, d2, d3, r7. repeat split; auto.
  - intros (d1 & d2 & d3 & rest & -> & -> & [Hn1 Hd1] & [Hn2 Hd2] & [Hn3 Hd3]).
    assert (E5 : Re.digits1 (d3 ++ String "_" (String "n" rest))
                 = Some (d3, String "_" (String "n" rest)))
      by (apply ReFacts.digits1_spec; auto).
    assert (E3 : Re.digits1
                   (d2 ++ String "_" (d3 ++ String "_" (String "n" rest)))
                 = Some (d2, String "_" (d3 ++ String "_" (String "n" rest))%string))
      by (apply ReFacts.digits1_spec; auto).
    assert (E1 : Re.digits1
                   (d1 ++ String "_"
                      (d2 ++ String "_" (d3 ++ String "_" (String "n" rest))))
                 = Some (d1, String "_"
                      (d2 ++ String "_" (d3 ++ String "_" (String "n" rest)))%string))
      by (apply ReFacts.digits1_spec; auto).
    cbn [append Re.lit obind Ascii.eqb Bool.eqb]. rewrite E1.
    cbn [append Re.lit obind Ascii.eqb Bool.eqb]. rewrite E3.
    cbn [append Re.lit obind Ascii.eqb Bool.eqb]. rewrite E5.
    reflexivity.
Qed.

(** ** Fallback keys *)

Lemma str_of_nat_inj n m : str_of_nat n = str_of_nat m -> n = m.
Proof.
  unfold str_of_nat. intros H.
  apply DecimalNat.Unsigned.to_uint_inj.
  apply (f_equal NilEmpty.uint_of_string) in H.
  rewrite !NilEmpty.usu in H. congruence.
Qed.

(** Two fallback keys with different numbers differ. *)
Lemma single_key_inj n m : single_key n = single_key m -> n = m.
Proof.
  unfold single_key. simpl. intros [= H]. now apply str_of_nat_inj.
Qed.

(** A fallback key is never a PostID. *)
Lemma post_id_not_single url post_id n :
  post_id_of url = Some post_id -> post_id <> single_key n.
Proof.
  intros H E. apply post_id_shape in H as [_ Hd].
  rewrite E in Hd. discriminate Hd.
Qed.

(** ** Searching past a prefix in which no slash is followed by a digit *)

Lemma group_pattern_at_needs_slash_digit c r :
  Ascii.eqb c "/" && starts_with_digit r = false ->
  group_pattern_at (String c r) = None.
Proof.
  unfold group_pattern_at. cbn [Re.lit].
  rewrite (Ascii.eqb_sym c "/").
  destruct (Ascii.eqb "/" c); cbn [andb obind]; [|reflexivity].
  intros H. now rewrite ReFacts.digits1_no_digit.
Qed.

Lemma image_pattern_at_needs_slash_digit c r :
  Ascii.eqb c "/" && starts_with_digit r = false ->
  image_pattern_at (String c r) = None.
Proof.
  unfold image_pattern_at. cbn [Re.lit].
  rewrite (Ascii.eqb_sym c "/").
  destruct (Ascii.eqb "/" c); cbn [andb obind]; [|reflexivity].
  intros H. now rewrite ReFacts.digits1_no_digit.
Qed.

Lemma search_past_prefix {A : Type} (f : string -> option A) p t :
  (forall c r, Ascii.eqb c "/" && starts_with_digit r = false ->
               f (String c r) = None) ->
  no_slash_digit p = true ->
  starts_with_digit t = false ->
  Re.search f (p ++ t) = Re.search f t.
Proof.
  intros Hf Hp Ht. induction p as [|c p IH]; [reflexivity|].
  simpl in Hp. apply andb_true_iff in Hp as [Hc Hp].
  apply negb_true_iff in Hc.
  cbn [append Re.search].
  rewrite Hf.
  - now apply IH.
  - destruct (Ascii.eqb c "/"); [|reflexivity].
    simpl in *. destruct p as [|c' p]; simpl in *; assumption.
Qed.

(** ** Folding with an invariant *)

Lemma fold_left_invariant {A B : Type} (step : A -> B -> A) (P : A -> Prop)
  (l : list B) :
  (forall a b, In b l -> P a -> P (step a b)) ->
  forall a, P a -> P (fold_left step l a).
Proof.
  induction l as [|b l IH]; intros Hstep a Ha; simpl; [assumption|].
  apply IH.
  - intros a' b' Hb'. apply Hstep. now right.
  - apply Hstep; [now left | assumption].
Qed.

(** ** [dedupe_sizes]: what [seen_ids] always satisfies *)

(** An iteration either leaves [seen_ids] alone or files the URL under its
    key. *)
Lemma dedupe_step_cases seen_ids url :
  dedupe_step seen_ids url = seen_ids \/
  exists priority,
    dedupe_step seen_ids url = dict_set (key_of url) (url, priority) seen_ids.
Proof.
  unfold dedupe_step, key_of. destruct (img_id_of url) as [img_id|].
  - destruct (dict_get img_id seen_ids) as [[u p]|].
    + destruct (p <? priority_of url)%nat; [right; eauto | now left].
    + right; eauto.
  - right; eauto.
Qed.

Lemma dedupe_step_ok seen_ids url :
  seen_ok seen_ids -> seen_ok (dedupe_step seen_ids url).
Proof.
  intros [Hnd Hall].
  destruct (dedupe_step_cases seen_ids url) as [->|[p ->]]; [now split|].
  split; [now apply dict_set_NoDup|].
  apply Forall_forall. intros [k [u q]] Hin.
  apply dict_set_In in Hin as [E|Hin].
  - injection E as -> -> ->. reflexivity.
  - rewrite Forall_forall in Hall. now apply Hall.
Qed.

Lemma dedupe_fold_ok urls seen_ids :
  seen_ok seen_ids -> seen_ok (fold_left dedupe_step urls seen_ids).
Proof.
  apply fold_left_invariant. intros a b _. apply dedupe_step_ok.
Qed.

Lemma dedupe_seen_ok urls : seen_ok (dedupe_seen urls).
Proof. apply dedupe_fold_ok. split; constructor. Qed.

Lemma dedupe_step_length seen_ids url :
  List.length seen_ids <= List.length (dedupe_step seen_ids url)
  <= S (List.length seen_ids).
Proof.
  destruct (dedupe_step_cases seen_ids url) as [->|[p ->]]; [lia|].
  apply dict_set_length.
Qed.

Lemma dedupe_fold_length urls seen_ids :
  List.length seen_ids <= List.length (fold_left dedupe_step urls seen_ids)
  <= List.length seen_ids + List.length urls.
Proof.
  revert seen_ids. induction urls as [|u urls IH]; intros d; simpl; [lia|].
  specialize (IH (dedupe_step d u)).
  pose proof (dedupe_step_length d u). lia.
Qed.

Lemma dedupe_sizes_length urls :
  List.length (dedupe_sizes urls) <= List.length urls.
Proof.
  unfold dedupe_sizes, dict_values, dedupe_seen. rewrite !length_map.
  pose proof (dedupe_fold_length urls []). simpl in *. lia.
Qed.

(** [dedupe_sizes] returns URLs of its argument only. *)
Lemma dedupe_sizes_incl urls : incl (dedupe_sizes urls) urls.
Proof.
  assert (H : Forall (fun item => In (fst (snd item)) urls)
                (dedupe_seen urls)).
  { unfold dedupe_seen.
    apply (fold_left_invariant dedupe_step
             (Forall (fun item => In (fst (snd item)) urls)));
      [|constructor].
    intros d u Hu Hd.
    destruct (dedupe_step_cases d u) as [->|[p ->]]; [assumption|].
    apply Forall_forall. intros [k [w q]] Hin.
    apply dict_set_In in Hin as [E|Hin].
    - injection E as -> -> ->. assumption.
    - rewrite Forall_forall in Hd. now apply (Hd _ Hin). }
  intros u Hu. unfold dedupe_sizes, dict_values in Hu.
  rewrite map_map in Hu. apply in_map_iff in Hu as (item & <- & Hin).
  rewrite Forall_forall in H. now apply H.
Qed.

(** The URLs held by a well-formed [seen_ids] are pairwise different. *)
Lemma seen_ok_urls_NoDup seen_ids :
  seen_ok seen_ids -> NoDup (map fst (dict_values seen_ids)).
Proof.
  intros [Hnd Hall]. apply (NoDup_map_inv key_of).
  replace (map key_of (map fst (dict_values seen_ids)))
    with (dict_keys seen_ids); [assumption|].
  unfold dict_values, dict_keys. rewrite !map_map.
  apply map_ext_in. intros item Hin.
  rewrite Forall_forall in Hall. symmetry. now apply Hall.
Qed.

Lemma dedupe_sizes_NoDup urls : NoDup (dedupe_sizes urls).
Proof. apply seen_ok_urls_NoDup, dedupe_seen_ok. Qed.

(** A non-empty group keeps at least one URL. *)
Lemma dedupe_sizes_nonempty urls : urls <> [] -> dedupe_sizes urls <> [].
Proof.
  destruct urls as [|u urls]; [contradiction|]. intros _ H.
  apply (f_equal (@List.length string)) in H.
  unfold dedupe_sizes, dict_values, dedupe_seen in H.
  rewrite !length_map in H. simpl in H.
  pose proof (dedupe_fold_length urls (dedupe_step [] u)) as [Hlo _].
  pose proof (dedupe_step_cases [] u) as [E|[p E]]; rewrite E in *.
  - unfold dedupe_step in E.
    destruct (img_id_of u); simpl in E; discriminate.
  - simpl in *. lia.
Qed.

Lemma dedupe_sizes_single url : dedupe_sizes [url] = [url].
Proof.
  unfold dedupe_sizes, dedupe_seen. simpl. unfold dedupe_step.
  destruct (img_id_of url); reflexivity.
Qed.

(** Running the loop of [dedupe_sizes] over the URLs held by a well-formed
    dictionary, whose keys are new to [seen_ids], files every one of them,
    in order. *)
Lemma dedupe_refile (held seen_ids : dict (string * nat)) :
  Forall entry_ok held ->
  NoDup (dict_keys seen_ids ++ dict_keys held) ->
  map fst (dict_values
             (fold_left dedupe_step (map fst (dict_values held)) seen_ids))
  = map fst (dict_values seen_ids) ++ map fst (dict_values held).
Proof.
  revert seen_ids. induction held as [|[k [u p]] held IH];
    intros seen_ids Hall Hnd; simpl.
  - now rewrite app_nil_r.
  - apply Forall_cons_iff in Hall as [Hk Hall].
    unfold entry_ok in Hk. simpl in Hk.
    assert (Habs : dict_get k seen_ids = None).
    { apply dict_get_None_keys. intros Hin.
      apply NoDup_remove_2 in Hnd. apply Hnd.
      apply in_or_app. now left. }
    assert (E : exists q,
               dedupe_step seen_ids u = seen_ids ++ [(k, (u, q))]).
    { unfold dedupe_step. unfold key_of in Hk.
      destruct (img_id_of u) as [img_id|]; subst k.
      - rewrite Habs. rewrite dict_set_absent by assumption. eauto.
      - rewrite dict_set_absent by assumption. eauto. }
    destruct E as [q ->].
    rewrite IH.
    + rewrite dict_values_app, map_app. simpl. now rewrite <- app_assoc.
    + assumption.
    + rewrite dict_keys_app. simpl. rewrite <- app_assoc. exact Hnd.
Qed.

(** ** [group_images]: what [groups] always satisfies *)

Lemma group_ok_mono n n' item : n <= n' -> group_ok n item -> group_ok n' item.
Proof.
  intros Hle [Hne [H|(m & u & Hk & Hm & Hg & Hu)]]; split; auto.
  right. exists m, u. repeat split; auto. lia.
Qed.

Lemma dict_append_last {A : Type} k (x : A) g (d : dict (list A)) :
  dict_get k d = None ->
  dict_append k x (d ++ [(k, g)]) = d ++ [(k, g ++ [x])].
Proof.
  induction d as [|[k' v'] d IH]; simpl.
  - now rewrite String.eqb_refl.
  - destruct (String.eqb_spec k k'); [discriminate|].
    intros H. now rewrite IH.
Qed.

(** The fallback key built from the current size of [groups] is new. *)
Lemma single_key_fresh groups :
  Forall (group_ok (List.length groups)) groups ->
  dict_get (single_key (List.length groups)) groups = None.
Proof.
  intros Hall. apply dict_get_None_keys. intros Hin.
  apply in_map_iff in Hin as ([k g] & Hk & Hin). simpl in Hk. subst k.
  rewrite Forall_forall in Hall.
  destruct (Hall _ Hin) as [Hne [H|(m & u & Hk & Hm & _)]]; simpl in *.
  - destruct g as [|u g]; [contradiction|].
    apply (post_id_not_single u (single_key (List.length groups))
             (List.length groups)); [|reflexivity].
    apply H. now left.
  - apply single_key_inj in Hk. lia.
Qed.

(** What one iteration of the first loop does to [groups], case by case. *)
Lemma group_step_cases groups url :
  Forall (group_ok (List.length groups)) groups ->
  match post_id_of url with
  | Some post_id =>
      match dict_get post_id groups with
      | Some g =>
          exists d1 d2,
            groups = d1 ++ (post_id, g) :: d2 /\
            group_step groups url = d1 ++ (post_id, g ++ [url]) :: d2
      | None => group_step groups url = groups ++ [(post_id, [url])]
      end
  | None =>
      group_step groups url
      = groups ++ [(single_key (List.length groups), [url])]
  end.
Proof.
  intros Hall. unfold group_step.
  destruct (post_id_of url) as [post_id|] eqn:Hp.
  - destruct (dict_get post_id groups) as [g|] eqn:Hg.
    + now apply dict_append_present.
    + rewrite dict_set_absent by assumption.
      now rewrite dict_append_last.
  - apply dict_set_absent. now apply single_key_fresh.
Qed.

Lemma group_step_ok images groups url :
  groups_ok images groups ->
  groups_ok (images ++ [url]) (group_step groups url).
Proof.
  intros (Hnd & Hall & Hperm).
  pose proof (group_step_cases groups url Hall) as Hstep.
  destruct (post_id_of url) as [post_id|] eqn:Hp.
  - destruct (dict_get post_id groups) as [g|] eqn:Hg.
    + destruct Hstep as (d1 & d2 & -> & ->).
      repeat split.
      * unfold dict_keys in *. rewrite map_app in *. exact Hnd.
      * rewrite length_app in *. simpl in *.
        apply Forall_app in Hall as [H1 H2].
        apply Forall_cons_iff in H2 as [[Hne Hg0] H2].
        apply Forall_app. split; [assumption|].
        constructor; [|assumption].
        split; simpl in *; [now destruct g|].
        left. intros u Hu. apply in_app_or in Hu as [Hu|[<-|[]]];
          [|assumption].
        destruct Hg0 as [H|(m & u0 & Hk & _)]; [now apply H|].
        exfalso. now apply (post_id_not_single url post_id m).
      * rewrite dict_values_app, concat_app in *. simpl in *.
        rewrite <- app_assoc. simpl.
        rewrite (app_assoc (concat (dict_values d1)) g).
        rewrite <- Permutation_middle.
        rewrite <- Permutation_cons_append.
        apply perm_skip. now rewrite <- app_assoc.
    + rewrite Hstep. repeat split.
      * rewrite dict_keys_app. simpl.
        apply NoDup_app; [assumption | repeat constructor; simpl; tauto |].
        intros a Ha [<-|[]]. now apply dict_get_None_keys in Hg.
      * rewrite length_app. simpl. apply Forall_app. split.
        -- eapply Forall_impl; [|exact Hall].
           intros item. apply group_ok_mono. lia.
        -- constructor; [|constructor].
           split; simpl; [discriminate|].
           left. intros u [<-|[]]. assumption.
      * rewrite dict_values_app, concat_app. simpl.
        now apply Permutation_app_tail.
  - rewrite Hstep. pose proof (single_key_fresh groups Hall) as Hfresh.
    repeat split.
    + rewrite dict_keys_app. simpl.
      apply NoDup_app; [assumption | repeat constructor; simpl; tauto |].
      intros a Ha [<-|[]]. now apply dict_get_None_keys in Hfresh.
    + rewrite length_app. simpl. apply Forall_app. split.
      * eapply Forall_impl; [|exact Hall].
        intros item. apply group_ok_mono. lia.
      * constructor; [|constructor].
        split; simpl; [discriminate|].
        right. exists (List.length groups), url. repeat split; auto. lia.
    + rewrite dict_values_app, concat_app. simpl.
      now apply Permutation_app_tail.
Qed.

Lemma build_groups_snoc images url :
  build_groups (images ++ [url]) = group_step (build_groups images) url.
Proof. unfold build_groups. now rewrite fold_left_app. Qed.

Lemma build_groups_ok images : groups_ok images (build_groups images).
Proof.
  induction images as [|url images IH] using rev_ind.
  - repeat split; constructor.
  - rewrite build_groups_snoc. now apply group_step_ok.
Qed.

(** The second loop maps [dedupe_sizes] over the groups and keeps what is
    not empty. *)
Lemma post_fold_filter (groups : dict (list string)) posts :
  fold_left post_step groups posts
  = posts ++ filter nonempty (map dedupe_sizes (dict_values groups)).
Proof.
  revert posts. induction groups as [|[k g] groups IH]; intros posts; simpl.
  - now rewrite app_nil_r.
  - rewrite IH. unfold post_step. simpl.
    destruct (dedupe_sizes g); simpl; [reflexivity|].
    now rewrite <- app_assoc.
Qed.

Lemma group_images_filter images :
  group_images images
  = filter nonempty (map dedupe_sizes (dict_values (build_groups images))).
Proof. unfold group_images. now rewrite post_fold_filter. Qed.

(** Every group is non-empty, so the second loop drops none. *)
Lemma build_groups_nonempty images :
  Forall (fun g => g <> []) (dict_values (build_groups images)).
Proof.
  destruct (build_groups_ok images) as (_ & Hall & _).
  apply Forall_forall. intros g Hin.
  apply in_map_iff in Hin as (item & <- & Hin).
  rewrite Forall_forall in Hall. now destruct (Hall _ Hin).
Qed.

Lemma filter_nonempty_dedupe groups :
  Forall (fun g : list string => g <> []) groups ->
  filter nonempty (map dedupe_sizes groups) = map dedupe_sizes groups.
Proof.
  induction 1 as [|g groups Hg _ IH]; [reflexivity|].
  simpl. rewrite IH.
  pose proof (dedupe_sizes_nonempty g Hg).
  now destruct (dedupe_sizes g).
Qed.

Lemma group_images_map images :
  group_images images
  = map dedupe_sizes (dict_values (build_groups images)).
Proof.
  rewrite group_images_filter.
  apply filter_nonempty_dedupe, build_groups_nonempty.
Qed.

Lemma concat_dedupe_length (groups : list (list string)) :
  List.length (concat (map dedupe_sizes groups))
  <= List.length (concat groups).
Proof.
  induction groups as [|g groups IH]; simpl; [lia|].
  rewrite !length_app. pose proof (dedupe_sizes_length g). lia.
Qed.

Lemma concat_dedupe_NoDup (groups : list (list string)) :
  NoDup (concat groups) -> NoDup (concat (map dedupe_sizes groups)).
Proof.
  induction groups as [|g groups IH]; simpl; [constructor|].
  intros Hnd. apply NoDup_app.
  - apply dedupe_sizes_NoDup.
  - apply IH. now apply NoDup_app_remove_l in Hnd.
  - intros u Hu Hin. apply dedupe_sizes_incl in Hu.
    apply in_concat in Hin as (post & Hpost & Hin).
    apply in_map_iff in Hpost as (g' & <- & Hg').
    apply dedupe_sizes_incl in Hin.
    assert (Hc : In u (concat groups)) by (apply in_concat; eauto).
    clear - Hnd Hu Hc. induction g as [|a g IHg]; [contradiction|].
    simpl in Hnd. apply NoDup_cons_iff in Hnd as [Ha Hnd].
    destruct Hu as [->|Hu]; [|now apply IHg].
    apply Ha. apply in_or_app. now right.
Qed.

(** A URL of a duplicate-free family of posts is in exactly one of them. *)
Lemma posts_containing_absent url posts :
  ~ In url (concat posts) -> posts_containing url posts = [].
Proof.
  induction posts as [|post posts IH]; simpl; [reflexivity|].
  intros Hn. destruct (existsb (String.eqb url) post) eqn:E.
  - exfalso. apply Hn. apply in_or_app. left.
    apply existsb_exists in E as (u & Hu & Eu).
    apply String.eqb_eq in Eu. now subst.
  - apply IH. intros H. apply Hn. apply in_or_app. now right.
Qed.

Lemma posts_containing_one url post posts :
  NoDup (concat posts) -> In post posts -> In url post ->
  posts_containing url posts = [post].
Proof.
  induction posts as [|q posts IH]; simpl; [contradiction|].
  intros Hnd Hpost Hurl.
  destruct (existsb (String.eqb url) q) eqn:E.
  - apply existsb_exists in E as (u & Hu & Eu).
    apply String.eqb_eq in Eu. subst u.
    assert (Hout : ~ In url (concat posts)).
    { clear - Hnd Hu. induction q as [|a q IHq]; [contradiction|].
      simpl in Hnd. apply NoDup_cons_iff in Hnd as [Ha Hnd].
      destruct Hu as [->|Hu]; [|now apply IHq].
      intros H. apply Ha. apply in_or_app. now right. }
    rewrite posts_containing_absent by assumption.
    destruct Hpost as [->|Hpost]; [reflexivity|].
    exfalso. apply Hout. apply in_concat. eauto.
  - destruct Hpost as [->|Hpost].
    + exfalso. apply not_true_iff_false in E. apply E.
      apply existsb_exists. exists url. split; [assumption|].
      apply String.eqb_refl.
    + apply IH; auto. now apply NoDup_app_remove_l in Hnd.
Qed.

(** A fallback group, once made, is never touched again. *)
Lemma group_step_keeps_single groups url m u :
  Forall (group_ok (List.length groups)) groups ->
  In (single_key m, [u]) groups ->
  In (single_key m, [u]) (group_step groups url).
Proof.
  intros Hall Hin. pose proof (group_step_cases groups url Hall) as Hstep.
  destruct (post_id_of url) as [post_id|] eqn:Hp.
  - destruct (dict_get post_id groups) as [g|].
    + destruct Hstep as (d1 & d2 & -> & ->).
      apply in_app_or in Hin as [Hin|[E|Hin]].
      * apply in_or_app. now left.
      * injection E as E _. exfalso.
        now apply (post_id_not_single url post_id m).
      * apply in_or_app. right. now right.
    + rewrite Hstep. apply in_or_app. now left.
  - rewrite Hstep. apply in_or_app. now left.
Qed.

Lemma group_fold_keeps_single rest images groups m u :
  groups_ok images groups ->
  In (single_key m, [u]) groups ->
  In (single_key m, [u]) (fold_left group_step rest groups).
Proof.
  revert images groups. induction rest as [|v rest IH];
    intros images groups Hok Hin; simpl; [assumption|].
  apply (IH (images ++ [v])).
  - now apply group_step_ok.
  - destruct Hok as (_ & Hall & _). now apply group_step_keeps_single.
Qed.

(** A URL without PostID gets a group of its own, which is still there
    when the first loop ends. *)
Lemma fallback_group_kept before url after :
  post_id_of url = None ->
  In (single_key (List.length (build_groups before)), [url])
    (build_groups (before ++ url :: after)).
Proof.
  intros Hp. unfold build_groups at 2. rewrite fold_left_app. simpl.
  fold (build_groups before).
  destruct (build_groups_ok before) as (Hk & Hall & Hperm).
  apply (group_fold_keeps_single after (before ++ [url])).
  - apply group_step_ok. now repeat split.
  - pose proof (group_step_cases (build_groups before) url Hall) as Hstep.
    rewrite Hp in Hstep. rewrite Hstep. apply in_or_app. right. now left.
Qed.

(** * The claims *)

(** C10.  The grouper never invents or rewrites URLs: every URL of every
    returned post is an element of the input list, and the posts together
    hold at most as many URLs as the input has elements. *)
Theorem group_images_only_input_urls (images : list string) :
  (forall post url,
      In post (group_images images) -> In url post -> In url images) /\
  List.length (concat (group_images images)) <= List.length images.
Proof.
  destruct (build_groups_ok images) as (_ & _ & Hperm).
  rewrite group_images_map. split.
  - intros post url Hpost Hurl.
    apply in_map_iff in Hpost as (g & <- & Hg).
    apply dedupe_sizes_incl in Hurl.
    apply (Permutation_in _ Hperm). apply in_concat. eauto.
  - rewrite <- (Permutation_length Hperm). apply concat_dedupe_length.
Qed.

(** C9.  Every post returned by the grouper is non-empty.  The guard of the
    second loop drops a group whose de-duplication is empty; that never
    happens, because a non-empty group keeps a URL and every group is
    non-empty, so the grouper returns one post per group. *)
Theorem group_images_posts_nonempty (images : list string) :
  (forall post, In post (group_images images) -> post <> []) /\
  (forall urls, urls <> [] -> dedupe_sizes urls <> []) /\
  (forall key urls, In (key, urls) (build_groups images) -> urls <> []) /\
  List.length (group_images images) = List.length (build_groups images).
Proof.
  repeat split.
  - intros post Hin. rewrite group_images_filter in Hin.
    apply filter_In in Hin as [_ Hne]. now destruct post.
  - apply dedupe_sizes_nonempty.
  - intros key urls Hin.
    pose proof (build_groups_nonempty images) as H.
    rewrite Forall_forall in H. apply H.
    change urls with (snd (key, urls)). now apply in_map.
  - rewrite group_images_map. unfold dict_values. now rewrite !length_map.
Qed.

(** C6.  [dedupe_sizes] is idempotent: applied to its own output it returns
    that output, as a list and therefore as a set. *)
Theorem dedupe_sizes_idempotent (urls : list string) :
  dedupe_sizes (dedupe_sizes urls) = dedupe_sizes urls /\
  (forall url,
      In url (dedupe_sizes (dedupe_sizes urls)) <->
      In url (dedupe_sizes urls)).
Proof.
  assert (E : dedupe_sizes (dedupe_sizes urls) = dedupe_sizes urls).
  { destruct (dedupe_seen_ok urls) as [Hnd Hall].
    unfold dedupe_sizes at 1. unfold dedupe_seen at 1.
    unfold dedupe_sizes. now rewrite dedupe_refile. }
  split; [assumption|]. intros url. now rewrite E.
Qed.

(** C3.  The groups built by the first loop partition the input.  Their
    URLs taken together are a rearrangement of the input list, with no key
    used twice; for an input without repetition a URL is in a group exactly
    when it is in the input and no URL is in two groups or twice in one.
    The fallback key is absent from the dictionary at the moment it is
    assigned, and no fallback key equals a PostID, which is nine digits. *)
Theorem build_groups_partition (images : list string) :
  NoDup images ->
  Permutation (concat (dict_values (build_groups images))) images /\
  (forall url,
      In url images <->
      exists key urls, In (key, urls) (build_groups images) /\ In url urls) /\
  NoDup (concat (dict_values (build_groups images))) /\
  NoDup (dict_keys (build_groups images)) /\
  (forall before url after,
      images = before ++ url :: after -> post_id_of url = None ->
      dict_get (single_key (List.length (build_groups before)))
        (build_groups before) = None /\
      In (single_key (List.length (build_groups before)), [url])
        (build_groups images)) /\
  (forall url post_id n,
      post_id_of url = Some post_id ->
      String.length post_id = 9 /\ Re.all_digits post_id = true /\
      post_id <> single_key n).
Proof.
  intros Hnd.
  destruct (build_groups_ok images) as (Hkeys & Hall & Hperm).
  repeat split.
  - assumption.
  - intros Hin. apply (Permutation_in _ (Permutation_sym Hperm)) in Hin.
    apply in_concat in Hin as (g & Hg & Hin).
    apply in_map_iff in Hg as ([k g'] & <- & Hg). eauto.
  - intros (k & g & Hg & Hin). apply (Permutation_in _ Hperm).
    apply in_concat. exists g. split; [|assumption].
    change g with (snd (k, g)). now apply in_map.
  - apply (Permutation_NoDup (Permutation_sym Hperm) Hnd).
  - assumption.
  - destruct (build_groups_ok before) as (_ & Hb & _).
    now apply single_key_fresh.
  - subst images. now apply fallback_group_kept.
  - now apply post_id_shape in H.
  - now apply post_id_shape in H.
  - now apply (post_id_not_single url).
Qed.

Lemma build_groups_partition_witness :
  let images :=
    ["https://cdn.example/v/1_123456789_2_n.jpg";
     "https://cdn.example/avatar.png";
     "https://cdn.example/v/3_123456789_4_n.jpg";
     "https://cdn.example/logo.svg";
     "https://cdn.example/v/5_987654321_6_n.jpg"] in
  NoDup images /\
  Permutation (concat (dict_values (build_groups images))) images /\
  NoDup (concat (dict_values (build_groups images))) /\
  NoDup (dict_keys (build_groups images)).
Proof.
  intros images.
  assert (Hnd : NoDup images).
  { unfold images. repeat constructor; simpl; intuition discriminate. }
  split; [exact Hnd|].
  destruct (build_groups_partition images Hnd) as (H1 & _ & H3 & H4 & _).
  repeat split; assumption.
Defined.

Lemma grouped_posts_NoDup images :
  NoDup images -> NoDup (concat (group_images images)).
Proof.
  intros Hnd. destruct (build_groups_ok images) as (_ & _ & Hperm).
  rewrite group_images_map. apply concat_dedupe_NoDup.
  apply (Permutation_NoDup (Permutation_sym Hperm) Hnd).
Qed.

(** C4, as the code has it.  In an input list without repetition, a URL
    that matches neither the grouping pattern nor the de-duplication
    pattern is returned in exactly one post, which holds that URL alone. *)
Theorem unmatched_url_in_exactly_one_post (images : list string) (url : string) :
  NoDup images ->
  In url images ->
  post_id_of url = None ->
  img_id_of url = None ->
  In [url] (group_images images) /\
  posts_containing url (group_images images) = [[url]] /\
  List.length (posts_containing url (group_images images)) = 1.
Proof.
  intros Hnd Hin Hp _.
  assert (Hpost : In [url] (group_images images)).
  { apply in_split in Hin as (before & after & ->).
    pose proof (fallback_group_kept before url after Hp) as Hg.
    rewrite group_images_map. rewrite <- (dedupe_sizes_single url).
    apply in_map. apply in_map_iff. eexists. split; [|exact Hg]. reflexivity. }
  assert (E : posts_containing url (group_images images) = [[url]]).
  { apply posts_containing_one.
    - now apply grouped_posts_NoDup.
    - assumption.
    - now left. }
  repeat split; [assumption | assumption | now rewrite E].
Qed.

Lemma unmatched_url_in_exactly_one_post_witness :
  posts_containing "https://cdn.example/avatar.png"
    (group_images ["https://cdn.example/1_123456789_2_n.jpg";
                   "https://cdn.example/avatar.png"])
  = [["https://cdn.example/avatar.png"]].
Proof.
  apply (unmatched_url_in_exactly_one_post
           ["https://cdn.example/1_123456789_2_n.jpg";
            "https://cdn.example/avatar.png"]
           "https://cdn.example/avatar.png").
  - repeat constructor; simpl; intuition discriminate.
  - simpl. auto.
  - reflexivity.
  - reflexivity.
Defined.

(** C4 as stated fails on a list that repeats the URL: each occurrence
    makes a post of its own. *)
Lemma unmatched_url_repeated_counterexample :
  ~ (forall images url,
        In url images -> post_id_of url = None -> img_id_of url = None ->
        List.length (posts_containing url (group_images images)) = 1).
Proof.
  intros H.
  specialize (H ["https://cdn.example/avatar.png";
                 "https://cdn.example/avatar.png"]
                "https://cdn.example/avatar.png").
  assert (E : List.length
                (posts_containing "https://cdn.example/avatar.png"
                   (group_images ["https://cdn.example/avatar.png";
                                  "https://cdn.example/avatar.png"])) = 2)
    by (vm_compute; reflexivity).
  rewrite H in E; [discriminate | simpl; auto | reflexivity | reflexivity].
Qed.

(** ** The end-to-end example *)

Lemma append_inj_l (p a b : string) : (p ++ a)%string = (p ++ b)%string -> a = b.
Proof.
  induction p as [|c p IH]; simpl; [auto|]. intros [= H]. auto.
Qed.

Lemma post_id_past_prefix p t :
  no_slash_digit p = true -> starts_with_digit t = false ->
  post_id_of (p ++ t) = post_id_of t.
Proof.
  intros Hp Ht. unfold post_id_of.
  now rewrite (search_past_prefix group_pattern_at p t
                 group_pattern_at_needs_slash_digit Hp Ht).
Qed.

Lemma img_id_past_prefix p t :
  no_slash_digit p = true -> starts_with_digit t = false ->
  img_id_of (p ++ t) = img_id_of t.
Proof.
  intros Hp Ht. unfold img_id_of.
  now rewrite (search_past_prefix image_pattern_at p t
                 image_pattern_at_needs_slash_digit Hp Ht).
Qed.

(** Two different URLs without canonical identifier are both kept. *)
Lemma dedupe_sizes_unmatched_pair u v :
  img_id_of u = None -> img_id_of v = None -> u <> v ->
  dedupe_sizes [u; v] = [u; v].
Proof.
  intros Hu Hv Hne. unfold dedupe_sizes, dedupe_seen. simpl.
  unfold dedupe_step. rewrite Hu, Hv. simpl.
  destruct (String.eqb_spec v u) as [->|_]; [contradiction | reflexivity].
Qed.

(** C1, as the code has it.  Whatever stands before the last path segment
    (provided no slash in it is followed by a digit), the three URLs of
    the example give two posts: the first holds both the URL ending in
    111_123456789_n.jpg and its s150x150 variant, the second holds the
    URL ending in 222_987654321_n.jpg.  The variant is kept: the names
    have two runs of digits, the canonical identifier needs three. *)
Theorem end_to_end_example (prefix : string) :
  no_slash_digit prefix = true ->
  let full := (prefix ++ "/111_123456789_n.jpg")%string in
  let thumb := (prefix ++ "/111_123456789_n_s150x150.jpg")%string in
  let other := (prefix ++ "/222_987654321_n.jpg")%string in
  group_images [full; thumb; other] = [[full; thumb]; [other]].
Proof.
  intros Hp full thumb other.
  assert (Pf : post_id_of full = Some "123456789")
    by (unfold full; now rewrite post_id_past_prefix).
  assert (Pt : post_id_of thumb = Some "123456789")
    by (unfold thumb; now rewrite post_id_past_prefix).
  assert (Po : post_id_of other = Some "987654321")
    by (unfold other; now rewrite post_id_past_prefix).
  assert (If : img_id_of full = None)
    by (unfold full; now rewrite img_id_past_prefix).
  assert (It : img_id_of thumb = None)
    by (unfold thumb; now rewrite img_id_past_prefix).
  assert (Hne : full <> thumb).
  { unfold full, thumb. intros E. apply append_inj_l in E. discriminate. }
  assert (G : build_groups [full; thumb; other]
              = [("123456789", [full; thumb]); ("987654321", [other])]).
  { unfold build_groups. cbn [fold_left]. unfold group_step.
    rewrite Pf, Pt, Po. reflexivity. }
  unfold group_images. rewrite G. cbn [fold_left]. unfold post_step.
  cbn [snd]. rewrite dedupe_sizes_unmatched_pair by assumption.
  rewrite dedupe_sizes_single. reflexivity.
Qed.

Lemma end_to_end_example_witness :
  group_images
    ["https://scontent.cdninstagram.com/v/t51.2885-15/111_123456789_n.jpg";
     "https://scontent.cdninstagram.com/v/t51.2885-15/111_123456789_n_s150x150.jpg";
     "https://scontent.cdninstagram.com/v/t51.2885-15/222_987654321_n.jpg"]
  = [["https://scontent.cdninstagram.com/v/t51.2885-15/111_123456789_n.jpg";
      "https://scontent.cdninstagram.com/v/t51.2885-15/111_123456789_n_s150x150.jpg"];
     ["https://scontent.cdninstagram.com/v/t51.2885-15/222_987654321_n.jpg"]].
Proof.
  apply (end_to_end_example "https://scontent.cdninstagram.com/v/t51.2885-15").
  reflexivity.
Defined.

(** C1 as stated fails: with the prefix below the grouper returns no post
    that holds the full-resolution URL alone, and the s150x150 variant is
    still in the output, so the output is not the two posts of the claim
    in either order. *)
Lemma thumbnail_not_dropped_counterexample :
  let full :=
    "https://scontent.cdninstagram.com/v/t51.2885-15/111_123456789_n.jpg" in
  let thumb :=
    "https://scontent.cdninstagram.com/v/t51.2885-15/111_123456789_n_s150x150.jpg" in
  let other :=
    "https://scontent.cdninstagram.com/v/t51.2885-15/222_987654321_n.jpg" in
  group_images [full; thumb; other] = [[full; thumb]; [other]] /\
  ~ In [full] (group_images [full; thumb; other]) /\
  In thumb (concat (group_images [full; thumb; other])) /\
  ~ Permutation (group_images [full; thumb; other]) [[full]; [other]].
Proof.
  intros full thumb other.
  assert (E : group_images [full; thumb; other] = [[full; thumb]; [other]])
    by (vm_compute; reflexivity).
  rewrite E. repeat split.
  - intros [H|[H|[]]]; discriminate H.
  - simpl. auto.
  - intros H.
    assert (Hin : In [full; thumb] [[full]; [other]])
      by (apply (Permutation_in _ H); now left).
    destruct Hin as [H'|[H'|[]]]; discriminate H'.
Qed.

(** The same three pictures under names of the shape the patterns are made
    for, three runs of digits before [_n]: here the thumbnail is dropped. *)
Example end_to_end_three_runs :
  group_images
    ["https://cdn.example/v/111_123456789_333_n.jpg";
     "https://cdn.example/v/111_123456789_333_n_s150x150.jpg";
     "https://cdn.example/v/222_987654321_444_n.jpg"]
  = [["https://cdn.example/v/111_123456789_333_n.jpg"];
     ["https://cdn.example/v/222_987654321_444_n.jpg"]].
Proof. vm_compute. reflexivity. Qed.

(** ** Priorities and ties *)

Lemma has_slash_app a b : has_slash (a ++ b) = has_slash a || has_slash b.
Proof.
  induction a as [|c a IH]; simpl; [reflexivity|].
  now rewrite IH, orb_assoc.
Qed.

Lemma all_digits_no_slash d : Re.all_digits d = true -> has_slash d = false.
Proof.
  induction d as [|c d IH]; simpl; [reflexivity|].
  intros H. apply andb_true_iff in H as [Hc Hd]. rewrite (IH Hd).
  destruct (Ascii.eqb_spec c "/") as [->|_]; [discriminate Hc | reflexivity].
Qed.

(** A canonical identifier holds no slash. *)
Lemma img_id_no_slash url img_id :
  img_id_of url = Some img_id -> has_slash img_id = false.
Proof.
  intros H. apply ReFacts.search_Some in H as (pre & suf & _ & H).
  apply (proj1 (image_pattern_at_spec _ _)) in H
    as (d1 & d2 & d3 & rest & _ & -> & [_ H1] & [_ H2] & [_ H3]).
  rewrite !has_slash_app.
  rewrite (all_digits_no_slash _ H1), (all_digits_no_slash _ H2),
    (all_digits_no_slash _ H3). reflexivity.
Qed.

(** A URL with a PostID holds a slash. *)
Lemma post_id_has_slash url post_id :
  post_id_of url = Some post_id -> has_slash url = true.
Proof.
  unfold post_id_of.
  destruct (Re.search group_pattern_at url) as [[g1 g2]|] eqn:E;
    [|discriminate].
  intros _. apply ReFacts.search_Some in E as (pre & suf & -> & E).
  apply (proj1 (group_pattern_at_spec _ _ _)) in E as (rest & -> & _).
  rewrite has_slash_app. simpl. apply orb_true_r.
Qed.

Lemma priority_of_range url : 1 <= priority_of url <= 4.
Proof.
  unfold priority_of.
  destruct (Re.contains "s150x150" url), (Re.contains "s320x320" url),
    (Re.contains "s640x640" url); lia.
Qed.

(** The loop of [dedupe_sizes] over URLs that all carry the canonical
    identifier [img_id], started with one of them filed: a single item
    remains, and the URL it holds is one of them, of the highest
    priority. *)
Lemma dedupe_fold_same_id img_id urls :
  (forall url, In url urls -> img_id_of url = Some img_id) ->
  forall kept,
  exists kept',
    fold_left dedupe_step urls [(img_id, (kept, priority_of kept))]
    = [(img_id, (kept', priority_of kept'))] /\
    In kept' (kept :: urls) /\
    priority_of kept <= priority_of kept' /\
    (forall url, In url urls -> priority_of url <= priority_of kept').
Proof.
  induction urls as [|v urls IH]; intros Hid kept.
  - exists kept. simpl. repeat split; auto. intros url [].
  - assert (Hv : img_id_of v = Some img_id) by (apply Hid; now left).
    assert (Hid' : forall url, In url urls -> img_id_of url = Some img_id)
      by (intros url Hu; apply Hid; now right).
    cbn [fold_left]. unfold dedupe_step at 2. rewrite Hv.
    cbn [dict_get]. rewrite String.eqb_refl.
    destruct (priority_of kept <? priority_of v)%nat eqn:Hlt.
    + apply Nat.ltb_lt in Hlt.
      cbn [dict_set]. rewrite String.eqb_refl.
      destruct (IH Hid' v) as (kept' & E & Hin & Hle & Hmax).
      exists kept'. rewrite E. repeat split.
      * simpl in *. tauto.
      * lia.
      * intros url [<-|Hu]; [assumption | now apply Hmax].
    + apply Nat.ltb_ge in Hlt.
      destruct (IH Hid' kept) as (kept' & E & Hin & Hle & Hmax).
      exists kept'. rewrite E. repeat split.
      * simpl in *. tauto.
      * assumption.
      * intros url [<-|Hu]; [lia | now apply Hmax].
Qed.

Lemma dedupe_step_holds img_id late seen_ids url :
  img_id_of late = Some img_id ->
  url <> img_id ->
  holds_against img_id late seen_ids ->
  holds_against img_id late (dedupe_step seen_ids url).
Proof.
  intros Hlate Hne (kept & p & Hget & Hp & Hk).
  unfold dedupe_step.
  destruct (img_id_of url) as [id|] eqn:Hid.
  - destruct (String.eqb_spec id img_id) as [->|Hother].
    + rewrite Hget.
      destruct (p <? priority_of url)%nat eqn:Hlt.
      * apply Nat.ltb_lt in Hlt.
        exists url, (priority_of url). rewrite dict_get_set_same.
        repeat split; [lia|]. intros ->. lia.
      * exists kept, p. auto.
    + assert (Hset : forall v,
                 holds_against img_id late (dict_set id v seen_ids)).
      { intros v. exists kept, p.
        rewrite dict_get_set_other by congruence. auto. }
      destruct (dict_get id seen_ids) as [[w q]|]; [|apply Hset].
      destruct (q <? priority_of url)%nat; [apply Hset|].
      exists kept, p. auto.
  - exists kept, p. rewrite dict_get_set_other by congruence. auto.
Qed.

(** The later of two URLs tied on identifier and priority is not kept. *)
Lemma tie_later_not_kept before early between late after img_id :
  img_id_of early = Some img_id ->
  img_id_of late = Some img_id ->
  priority_of early = priority_of late ->
  early <> late ->
  ~ In late before ->
  ~ In img_id (between ++ late :: after) ->
  ~ In late (dedupe_sizes (before ++ early :: between ++ late :: after)).
Proof.
  intros He Hl Hprio Hne Hbefore Hbare.
  set (rest := between ++ late :: after) in *.
  pose proof (dedupe_seen_ok (before ++ early :: rest)) as [Hnd Hall].
  assert (Hhold : holds_against img_id late
                    (dedupe_seen (before ++ early :: rest))).
  { unfold dedupe_seen. rewrite fold_left_app. cbn [fold_left].
    fold (dedupe_seen before).
    apply (fold_left_invariant dedupe_step (holds_against img_id late)).
    - intros d v Hv. apply dedupe_step_holds; [assumption|].
      intros ->. contradiction.
    - assert (Hold : forall w q,
                 dict_get img_id (dedupe_seen before) = Some (w, q) ->
                 w <> late).
      { intros w q Hget ->. apply Hbefore.
        apply (dedupe_sizes_incl before).
        apply dict_get_In in Hget. unfold dedupe_sizes, dict_values.
        rewrite map_map. apply in_map_iff. now exists (img_id, (late, q)). }
      unfold dedupe_step. rewrite He.
      destruct (dict_get img_id (dedupe_seen before)) as [[w q]|] eqn:Hget.
      + destruct (q <? priority_of early)%nat eqn:Hlt.
        * exists early, (priority_of early). rewrite dict_get_set_same.
          repeat split; [lia | assumption].
        * apply Nat.ltb_ge in Hlt. exists w, q.
          repeat split; [assumption | lia | now apply (Hold w q)].
      + exists early, (priority_of early). rewrite dict_get_set_same.
        repeat split; [lia | assumption]. }
  destruct Hhold as (kept & p & Hget & _ & Hkept).
  intros Hin. unfold dedupe_sizes, dict_values in Hin. rewrite map_map in Hin.
  apply in_map_iff in Hin as ([k [w q]] & Hw & Hin). simpl in Hw. subst w.
  rewrite Forall_forall in Hall. pose proof (Hall _ Hin) as Hk.
  unfold entry_ok, key_of in Hk. simpl in Hk. rewrite Hl in Hk. subst k.
  apply (dict_In_get _ _ _ Hnd) in Hin. congruence.
Qed.

(** C5.  Four URLs with one canonical identifier, one bearing the s150x150
    marker, one the s320x320 marker, one the s640x640 marker and one
    bearing none of the three: in whatever order they come,
    [dedupe_sizes] returns the unmarked URL and nothing else. *)
Theorem full_resolution_retained
  (img_id u150 u320 u640 full : string) (urls : list string) :
  img_id_of u150 = Some img_id ->
  img_id_of u320 = Some img_id ->
  img_id_of u640 = Some img_id ->
  img_id_of full = Some img_id ->
  Re.contains "s150x150" u150 = true ->
  Re.contains "s320x320" u320 = true ->
  Re.contains "s640x640" u640 = true ->
  Re.contains "s150x150" full = false ->
  Re.contains "s320x320" full = false ->
  Re.contains "s640x640" full = false ->
  Permutation urls [u150; u320; u640; full] ->
  dedupe_sizes urls = [full].
Proof.
  intros I1 I2 I3 I4 M1 M2 M3 N1 N2 N3 Hperm.
  assert (P1 : priority_of u150 < 4)
    by (unfold priority_of; rewrite M1; lia).
  assert (P2 : priority_of u320 < 4)
    by (unfold priority_of; rewrite M2;
        destruct (Re.contains "s150x150" u320); lia).
  assert (P3 : priority_of u640 < 4)
    by (unfold priority_of; rewrite M3;
        destruct (Re.contains "s150x150" u640),
          (Re.contains "s320x320" u640); lia).
  assert (P4 : priority_of full = 4)
    by (unfold priority_of; now rewrite N1, N2, N3).
  assert (Hid : forall url, In url urls -> img_id_of url = Some img_id).
  { intros url Hin. apply (Permutation_in _ Hperm) in Hin.
    simpl in Hin. intuition (subst; assumption). }
  assert (Hfull : In full urls).
  { apply (Permutation_in _ (Permutation_sym Hperm)). simpl. auto. }
  destruct urls as [|first urls]; [contradiction|].
  unfold dedupe_sizes, dedupe_seen. cbn [fold_left].
  unfold dedupe_step at 2. rewrite (Hid first) by now left.
  cbn [dict_get dict_set].
  destruct (dedupe_fold_same_id img_id urls
              (fun url Hu => Hid url (or_intror Hu)) first)
    as (kept & -> & Hin & Hfirst & Hmax).
  cbn [dict_values map fst snd]. f_equal.
  assert (Hkept : 4 <= priority_of kept).
  { rewrite <- P4. destruct Hfull as [<-|Hf]; [assumption | now apply Hmax]. }
  apply (Permutation_in _ Hperm) in Hin. simpl in Hin.
  destruct Hin as [<-|[<-|[<-|[<-|[]]]]]; solve [reflexivity | lia].
Qed.

Lemma full_resolution_retained_witness :
  dedupe_sizes
    ["https://cdn.example/v/1_123456789_2_n.jpg";
     "https://cdn.example/v/s150x150/1_123456789_2_n.jpg";
     "https://cdn.example/v/s320x320/1_123456789_2_n.jpg";
     "https://cdn.example/v/s640x640/1_123456789_2_n.jpg"]
  = ["https://cdn.example/v/1_123456789_2_n.jpg"].
Proof.
  apply (full_resolution_retained "1_123456789_2_n"
           "https://cdn.example/v/s150x150/1_123456789_2_n.jpg"
           "https://cdn.example/v/s320x320/1_123456789_2_n.jpg"
           "https://cdn.example/v/s640x640/1_123456789_2_n.jpg"
           "https://cdn.example/v/1_123456789_2_n.jpg");
    try reflexivity.
  apply Permutation_cons_append.
Defined.

(** C2, as the code has it.  In a group built by the grouper, of two
    different URLs with the same canonical identifier and the same
    priority, the one met later is not kept when the other is met before
    its first occurrence: a filed URL gives way to a strictly higher
    priority only.  With just the two URLs the earlier one is the
    result. *)
Theorem tie_keeps_earlier (images : list string) (key : string)
  (before between after : list string) (early late img_id : string) :
  In (key, before ++ early :: between ++ late :: after)
    (build_groups images) ->
  img_id_of early = Some img_id ->
  img_id_of late = Some img_id ->
  priority_of early = priority_of late ->
  early <> late ->
  ~ In late before ->
  ~ In late (dedupe_sizes (before ++ early :: between ++ late :: after)) /\
  dedupe_sizes [early; late] = [early].
Proof.
  intros Hgroup He Hl Hprio Hne Hbefore. split.
  - apply (tie_later_not_kept _ _ _ _ _ img_id); try assumption.
    intros Hbare.
    destruct (build_groups_ok images) as (_ & Hall & _).
    rewrite Forall_forall in Hall.
    destruct (Hall _ Hgroup) as [_ [Hpid|(m & u & _ & _ & Hone & _)]];
      simpl in *.
    + assert (Hs : has_slash img_id = true).
      { apply (post_id_has_slash img_id key). apply Hpid.
        apply in_or_app. right. right. assumption. }
      rewrite (img_id_no_slash _ _ He) in Hs. discriminate.
    + apply (f_equal (@List.length string)) in Hone.
      rewrite length_app in Hone. simpl in Hone.
      rewrite length_app in Hone. simpl in Hone. lia.
  - unfold dedupe_sizes, dedupe_seen. cbn [fold_left].
    unfold dedupe_step. rewrite He, Hl. cbn [dict_get dict_set].
    rewrite String.eqb_refl, Hprio, Nat.ltb_irrefl. reflexivity.
Qed.

Lemma tie_keeps_earlier_witness :
  ~ In "https://cdn.example/v/1_123456789_2_n.jpg?se=2"
      (dedupe_sizes
         ([] ++ "https://cdn.example/v/1_123456789_2_n.jpg?se=1"
             :: [] ++ "https://cdn.example/v/1_123456789_2_n.jpg?se=2"
             :: [])) /\
  dedupe_sizes ["https://cdn.example/v/1_123456789_2_n.jpg?se=1";
                "https://cdn.example/v/1_123456789_2_n.jpg?se=2"]
  = ["https://cdn.example/v/1_123456789_2_n.jpg?se=1"].
Proof.
  apply (tie_keeps_earlier
           ["https://cdn.example/v/1_123456789_2_n.jpg?se=1";
            "https://cdn.example/v/1_123456789_2_n.jpg?se=2"]
           "123456789" [] [] []
           "https://cdn.example/v/1_123456789_2_n.jpg?se=1"
           "https://cdn.example/v/1_123456789_2_n.jpg?se=2"
           "1_123456789_2_n").
  - vm_compute. left. reflexivity.
  - reflexivity.
  - reflexivity.
  - reflexivity.
  - discriminate.
  - simpl. tauto.
Defined.

(** C2 as stated fails: two URLs of one group, tied on canonical identifier
    and priority; the earlier one is returned, the later one is not. *)
Lemma tie_break_counterexample :
  let early := "https://cdn.example/v/1_123456789_2_n.jpg?se=1" in
  let late := "https://cdn.example/v/1_123456789_2_n.jpg?se=2" in
  build_groups [early; late] = [("123456789", [early; late])] /\
  img_id_of early = Some "1_123456789_2_n" /\
  img_id_of late = Some "1_123456789_2_n" /\
  priority_of early = priority_of late /\
  dedupe_sizes [early; late] = [early] /\
  ~ In late (dedupe_sizes [early; late]).
Proof.
  intros early late.
  assert (E : dedupe_sizes [early; late] = [early])
    by (vm_compute; reflexivity).
  rewrite E. repeat split; try (vm_compute; reflexivity).
  intros [H|[]]. discriminate H.
Qed.

(** ** The scroll loop *)

Lemma loop_body_after page n :
  loop_body (page n) (state_after page n)
  = if (5 <=? run_length page (S n))%nat
    then Break (state_at_break page n)
    else Continue (state_after page (S n)).
Proof.
  unfold loop_body, state_after, state_at_break.
  cbn [all_images last_count no_new_count iterations scrolls].
  change (add_all (page n) (accumulated page n)) with (accumulated page (S n)).
  change (List.length (accumulated page (S n))) with (count_after page (S n)).
  cbn [run_length].
  destruct (count_after page (S n) =? count_after page n)%nat eqn:E.
  - destruct (5 <=? S (run_length page n))%nat; reflexivity.
  - reflexivity.
Qed.

Lemma scroll_loop_runs page k : forall i,
  (forall j, i < j <= i + k -> run_length page j < 5) ->
  scroll_loop page i k (state_after page i) = (state_after page (i + k), false).
Proof.
  induction k as [|k IH]; intros i Hrun; cbn [scroll_loop].
  - now rewrite Nat.add_0_r.
  - rewrite loop_body_after.
    assert (H : run_length page (S i) < 5) by (apply Hrun; lia).
    apply Nat.leb_gt in H. rewrite H.
    rewrite IH; [f_equal; f_equal; lia|].
    intros j Hj. apply Hrun. lia.
Qed.

Lemma scroll_loop_breaks page k extra : forall i,
  (forall j, i < j <= i + k -> run_length page j < 5) ->
  5 <= run_length page (S (i + k)) ->
  scroll_loop page i (k + S extra) (state_after page i)
  = (state_at_break page (i + k), true).
Proof.
  induction k as [|k IH]; intros i Hrun Hbreak; cbn [scroll_loop Nat.add].
  - rewrite loop_body_after. rewrite Nat.add_0_r in *.
    apply Nat.leb_le in Hbreak. now rewrite Hbreak.
  - rewrite loop_body_after.
    assert (H : run_length page (S i) < 5) by (apply Hrun; lia).
    apply Nat.leb_gt in H. rewrite H.
    rewrite IH.
    + f_equal. f_equal. lia.
    + intros j Hj. apply Hrun. lia.
    + replace (S i + k) with (i + S k) by lia. assumption.
Qed.

(** The last [run_length page n] iterations up to [n] did not grow the set. *)
Lemma run_length_stagnant page n :
  run_length page n <= n /\
  forall j, n - run_length page n < j <= n -> stagnant page j.
Proof.
  induction n as [|n [IHle IH]]; cbn [run_length].
  - split; [lia|]. intros j Hj. lia.
  - destruct (count_after page (S n) =? count_after page n)%nat eqn:E.
    + apply Nat.eqb_eq in E. split; [lia|]. intros j Hj.
      destruct (Nat.eq_dec j (S n)) as [->|Hne].
      * unfold stagnant. now rewrite Nat.sub_succ, Nat.sub_0_r.
      * apply IH. lia.
    + split; [lia|]. intros j Hj. lia.
Qed.

Lemma run_length_step page n :
  stagnant page (S n) -> run_length page (S n) = S (run_length page n).
Proof.
  unfold stagnant. rewrite Nat.sub_succ, Nat.sub_0_r. intros E.
  cbn [run_length]. apply Nat.eqb_eq in E. now rewrite E.
Qed.

Section Stagnation.
  Variable page : nat -> list string.
  Variable s : nat.
  Hypothesis Hstag : stagnates_from page s.
  Hypothesis Hfirst : forall t, t < s -> ~ stagnates_from page t.

Lemma run_length_before j : j <= s -> run_length page j < 5.
Proof.
  intros Hj. destruct (le_lt_dec 5 (run_length page j)) as [Hge|]; [|lia].
  exfalso. destruct (run_length_stagnant page j) as [Hle Hrun].
  apply (Hfirst (j - 5)); [lia|].
  intros n Hn. apply Hrun. lia.
Qed.

Lemma run_length_at_start : run_length page s = 0.
Proof.
  destruct (run_length page s) as [|r] eqn:E; [reflexivity|]. exfalso.
  destruct (run_length_stagnant page s) as [Hle Hrun].
  destruct s as [|s']; [lia|].
  apply (Hfirst s'); [lia|].
  intros n Hn. destruct (Nat.eq_dec n (S s')) as [->|Hne].
  - apply Hrun. lia.
  - apply Hstag. lia.
Qed.

Lemma run_length_during j : j <= 5 -> run_length page (s + j) = j.
Proof.
  induction j as [|j IH]; intros Hj.
  - rewrite Nat.add_0_r. apply run_length_at_start.
  - rewrite Nat.add_succ_r, run_length_step.
    + rewrite IH; lia.
    + apply Hstag. lia.
Qed.
End Stagnation.

(** C7.  Iterations are counted from 1, as the program prints them.  Let
    the five iterations [s + 1] to [s + 5] leave the accumulated set as it
    is, [s] being the first number with that property in the script; then
    [s] is where stagnation starts: iteration [s] grew the set, or [s = 0].
    Under every budget of at least [s + 5] the collector leaves the loop
    through [break] in iteration number [s + 5]: it has entered [s + 5]
    loop bodies and issued [s + 4] scrolls, none in that last iteration,
    and returns the set accumulated by then, however large the remaining
    budget is. *)
Theorem stagnation_stops_collector
  (page : nat -> list string) (max_scrolls s : nat) :
  stagnates_from page s ->
  (forall t, t < s -> ~ stagnates_from page t) ->
  s + 5 <= max_scrolls ->
  let (st, by_break) := collect page max_scrolls in
  (s = 0 \/ ~ stagnant page s) /\
  by_break = true /\
  iterations st = s + 5 /\
  scrolls st = s + 4 /\
  no_new_count st = 5 /\
  all_images st = accumulated page (s + 5) /\
  List.length (all_images st) = count_after page s /\
  collect page max_scrolls = collect page (s + 5).
Proof.
  intros Hstag Hfirst Hbudget.
  assert (Hrun : forall j, 0 < j <= 0 + (s + 4) -> run_length page j < 5).
  { intros j Hj. destruct (le_lt_dec j s) as [Hle|Hgt].
    - now apply (run_length_before page s Hfirst).
    - replace j with (s + (j - s)) by lia.
      rewrite (run_length_during page s Hstag Hfirst); lia. }
  assert (Hbreak : 5 <= run_length page (S (0 + (s + 4)))).
  { replace (S (0 + (s + 4))) with (s + 5) by lia.
    rewrite (run_length_during page s Hstag Hfirst); lia. }
  assert (E : forall extra,
             collect page (s + 4 + S extra)
             = (state_at_break page (0 + (s + 4)), true)).
  { intros extra. unfold collect.
    change init_state with (state_after page 0).
    now apply scroll_loop_breaks. }
  pose proof (E 0) as E5. replace (s + 4 + 1) with (s + 5) in E5 by lia.
  rewrite E5.
  replace max_scrolls with (s + 4 + S (max_scrolls - (s + 5))) by lia.
  rewrite E. cbn [state_at_break all_images iterations scrolls no_new_count].
  replace (S (0 + (s + 4))) with (s + 5) by lia.
  split; [|repeat split; try lia].
  - destruct s as [|s']; [now left | right].
    intros Hs. apply run_length_step in Hs.
    rewrite (run_length_at_start page (S s') Hstag Hfirst) in Hs.
    discriminate Hs.
  - now apply run_length_during.
  - change (List.length (accumulated page (s + 5)))
      with (count_after page (s + 5)).
    clear - Hstag. unfold stagnates_from, stagnant in Hstag.
    assert (H : forall j, j <= 5 -> count_after page (s + j) = count_after page s).
    { induction j as [|j IH]; intros Hj; [now rewrite Nat.add_0_r|].
      rewrite Nat.add_succ_r, (Hstag (S (s + j))) by lia.
      rewrite Nat.sub_succ, Nat.sub_0_r. apply IH. lia. }
    now apply H.
Qed.

Lemma stagnation_stops_collector_witness :
  let (st, by_break) := collect example_page 30 in
  (2 = 0 \/ ~ stagnant example_page 2) /\
  by_break = true /\
  iterations st = 2 + 5 /\
  scrolls st = 2 + 4 /\
  no_new_count st = 5 /\
  all_images st = accumulated example_page (2 + 5) /\
  List.length (all_images st) = count_after example_page 2 /\
  collect example_page 30 = collect example_page (2 + 5).
Proof.
  apply (stagnation_stops_collector example_page 30 2).
  - intros n Hn.
    assert (Hcases : n = 3 \/ n = 4 \/ n = 5 \/ n = 6 \/ n = 7) by lia.
    destruct Hcases as [->|[->|[->|[->| ->]]]]; reflexivity.
  - intros t Ht Hstag.
    assert (Hcases : t = 0 \/ t = 1) by lia.
    destruct Hcases as [->| ->].
    + assert (H : stagnant example_page 1) by (apply Hstag; lia).
      discriminate H.
    + assert (H : stagnant example_page 2) by (apply Hstag; lia).
      discriminate H.
  - lia.
Defined.

(** ** The result record *)

(** C8, as the code has it.  The record handed to [json.dump] has exactly
    five top-level fields, in this order: the source identifier
    [username], the completion timestamp [scraped_at], the number of raw
    images [total_images], the number of posts [total_posts], and the
    nested list of posts, each a list of URLs, [posts]. *)
Theorem scrape_result_five_fields
  (username scraped_at : string) (images : list string) :
  let result := scrape_result username scraped_at images in
  dict_keys result
  = ["username"; "scraped_at"; "total_images"; "total_posts"; "posts"] /\
  List.length result = 5 /\
  NoDup (dict_keys result) /\
  dict_get "username" result = Some (JString username) /\
  dict_get "scraped_at" result = Some (JString scraped_at) /\
  dict_get "total_images" result = Some (JNumber (List.length images)) /\
  dict_get "total_posts" result
  = Some (JNumber (List.length (group_images images))) /\
  dict_get "posts" result
  = Some (JArray (map (fun post => JArray (map JString post))
                    (group_images images))).
Proof.
  cbv zeta. unfold scrape_result. repeat split.
  repeat constructor; simpl; intuition discriminate.
Qed.

(** C8 as stated fails: the record of a run that found nothing has five
    top-level fields, not four. *)
Lemma scrape_result_counterexample :
  List.length (scrape_result "someone" "2024-05-01T12:00:00.000000" []) <> 4 /\
  dict_keys (scrape_result "someone" "2024-05-01T12:00:00.000000" [])
  = ["username"; "scraped_at"; "total_images"; "total_posts"; "posts"].
Proof.
  split; [discriminate | reflexivity].
Qed.

(** * Further properties of the grouper *)

Lemma dict_get_append_same {A : Type} k (x : A) (d : dict (list A)) :
  dict_get k (dict_append k x d)
  = option_map (fun g => g ++ [x]) (dict_get k d).
Proof.
  induction d as [|[k' v'] d IH]; simpl; [reflexivity|].
  destruct (String.eqb_spec k k') as [->|Hne]; simpl.
  - now rewrite String.eqb_refl.
  - destruct (String.eqb_spec k k'); [contradiction | assumption].
Qed.

Lemma dict_get_append_other {A : Type} k k' (x : A) (d : dict (list A)) :
  k <> k' -> dict_get k (dict_append k' x d) = dict_get k d.
Proof.
  intros Hne. induction d as [|[k0 v0] d IH]; simpl; [reflexivity|].
  destruct (String.eqb_spec k' k0) as [->|Hne0]; simpl.
  - destruct (String.eqb_spec k k0); [contradiction | reflexivity].
  - now rewrite IH.
Qed.

Lemma with_post_id_snoc post_id images url :
  with_post_id post_id (images ++ [url])
  = with_post_id post_id images
    ++ (if has_post_id post_id url then [url] else []).
Proof. unfold with_post_id. now rewrite filter_app. Qed.

(** What [groups] holds under a key that is not a fallback key: the URLs
    met so far with that PostID, in order, if there are any. *)
Lemma build_groups_get key images :
  (forall n, key <> single_key n) ->
  dict_get key (build_groups images)
  = match with_post_id key images with
    | [] => None
    | _ :: _ => Some (with_post_id key images)
    end.
Proof.
  intros Hkey. induction images as [|url images IH] using rev_ind;
    [reflexivity|].
  rewrite build_groups_snoc, with_post_id_snoc.
  unfold group_step, has_post_id.
  destruct (post_id_of url) as [post_id|] eqn:Hp.
  - destruct (String.eqb_spec post_id key) as [->|Hne].
    + rewrite dict_get_append_same.
      destruct (dict_get key (build_groups images)) as [g|] eqn:Hg.
      * rewrite Hg. simpl.
        destruct (with_post_id key images) as [|a g'] eqn:Hw;
          [discriminate|].
        injection IH as ->. reflexivity.
      * rewrite dict_get_set_same. simpl.
        destruct (with_post_id key images) as [|a g'] eqn:Hw;
          [reflexivity | discriminate].
    + rewrite app_nil_r.
      rewrite dict_get_append_other by congruence.
      destruct (dict_get post_id (build_groups images)); [assumption|].
      rewrite dict_get_set_other by congruence. assumption.
  - rewrite app_nil_r. rewrite dict_get_set_other; [assumption|].
    apply Hkey.
Qed.

Lemma has_post_id_true post_id url :
  has_post_id post_id url = true <-> post_id_of url = Some post_id.
Proof.
  unfold has_post_id. destruct (post_id_of url) as [k|].
  - rewrite String.eqb_eq. split; congruence.
  - split; discriminate.
Qed.

(** The group of a URL of a post: which item of [groups] it came from. *)
Lemma post_origin images post :
  In post (group_images images) ->
  exists key urls,
    In (key, urls) (build_groups images) /\ post = dedupe_sizes urls.
Proof.
  rewrite group_images_map. intros Hin.
  apply in_map_iff in Hin as (urls & <- & Hin).
  apply in_map_iff in Hin as ([key urls'] & <- & Hin). eauto.
Qed.

(** X1.  The group filed under the PostID of a URL of the input is made
    of the URLs of the input with that PostID, all of them and in the
    order of the input; its de-duplication is one of the posts returned. *)
Theorem group_of_post_id (images : list string) (url post_id : string) :
  In url images ->
  post_id_of url = Some post_id ->
  dict_get post_id (build_groups images)
  = Some (with_post_id post_id images) /\
  In url (with_post_id post_id images) /\
  In (dedupe_sizes (with_post_id post_id images)) (group_images images).
Proof.
  intros Hin Hp.
  assert (Hw : In url (with_post_id post_id images)).
  { apply filter_In. split; [assumption|]. now apply has_post_id_true. }
  assert (Hget : dict_get post_id (build_groups images)
                 = Some (with_post_id post_id images)).
  { rewrite build_groups_get.
    - destruct (with_post_id post_id images); [contradiction | reflexivity].
    - intros n. now apply (post_id_not_single url). }
  repeat split; [assumption | assumption |].
  rewrite group_images_map. apply in_map.
  apply dict_get_In in Hget.
  change (with_post_id post_id images)
    with (snd (post_id, with_post_id post_id images)).
  now apply in_map.
Qed.

Lemma group_of_post_id_witness :
  dict_get "123456789"
    (build_groups ["https://cdn.example/v/1_123456789_2_n.jpg";
                   "https://cdn.example/avatar.png";
                   "https://cdn.example/v/3_123456789_4_n.jpg"])
  = Some ["https://cdn.example/v/1_123456789_2_n.jpg";
          "https://cdn.example/v/3_123456789_4_n.jpg"].
Proof.
  apply (group_of_post_id
           ["https://cdn.example/v/1_123456789_2_n.jpg";
            "https://cdn.example/avatar.png";
            "https://cdn.example/v/3_123456789_4_n.jpg"]
           "https://cdn.example/v/3_123456789_4_n.jpg" "123456789").
  - simpl. auto.
  - reflexivity.
Defined.

(** The URLs kept from one item of [groups] all have the item's key as
    PostID, or the item is a single URL without PostID. *)
Lemma kept_url_post_id images key urls url :
  In (key, urls) (build_groups images) ->
  In url (dedupe_sizes urls) ->
  post_id_of url = Some key \/ (post_id_of url = None /\ urls = [url]).
Proof.
  intros Hg Hu. destruct (build_groups_ok images) as (_ & Hall & _).
  rewrite Forall_forall in Hall.
  destruct (Hall _ Hg) as [_ [H|(m & w & _ & _ & Hone & Hw)]]; simpl in *.
  - left. apply H. now apply dedupe_sizes_incl.
  - right. subst urls. rewrite dedupe_sizes_single in Hu.
    destruct Hu as [<-|[]]. auto.
Qed.

(** X2.  Posts go by PostID.  Two URLs of one returned post have the same
    PostID, or none and then they are the same URL; and two returned
    URLs with the same PostID are in the same post. *)
Theorem posts_go_by_post_id (images : list string)
  (post1 post2 : list string) (url1 url2 : string) :
  In post1 (group_images images) ->
  In post2 (group_images images) ->
  In url1 post1 ->
  In url2 post2 ->
  (post1 = post2 ->
   post_id_of url1 = post_id_of url2 /\
   (post_id_of url1 = None -> url1 = url2)) /\
  (post_id_of url1 = post_id_of url2 -> post_id_of url1 <> None ->
   post1 = post2).
Proof.
  intros Hp1 Hp2 Hu1 Hu2.
  destruct (build_groups_ok images) as (Hkeys & _ & _).
  apply post_origin in Hp1 as (k1 & g1 & Hg1 & E1).
  apply post_origin in Hp2 as (k2 & g2 & Hg2 & E2).
  split.
  - intros Heq. rewrite Heq, E2 in Hu1. rewrite E2 in Hu2.
    destruct (kept_url_post_id _ _ _ _ Hg2 Hu1) as [A1|[A1 B1]];
      destruct (kept_url_post_id _ _ _ _ Hg2 Hu2) as [A2|[A2 B2]].
    + split; [congruence | intros H; congruence].
    + subst g2. rewrite dedupe_sizes_single in Hu1.
      destruct Hu1 as [<-|[]]. congruence.
    + subst g2. rewrite dedupe_sizes_single in Hu2.
      destruct Hu2 as [<-|[]]. congruence.
    + split; [congruence | intros _; congruence].
  - intros Heq Hsome. rewrite E1 in Hu1. rewrite E2 in Hu2.
    destruct (kept_url_post_id _ _ _ _ Hg1 Hu1) as [A1|[A1 _]];
      [|contradiction].
    destruct (kept_url_post_id _ _ _ _ Hg2 Hu2) as [A2|[A2 _]];
      [|congruence].
    assert (Hk : k1 = k2) by congruence. subst k2.
    apply (dict_In_get _ _ _ Hkeys) in Hg1.
    apply (dict_In_get _ _ _ Hkeys) in Hg2. congruence.
Qed.

Lemma posts_go_by_post_id_witness :
  post_id_of "https://cdn.example/v/1_123456789_2_n.jpg"
  = post_id_of "https://cdn.example/v/3_123456789_4_n.jpg".
Proof.
  apply (posts_go_by_post_id
           ["https://cdn.example/v/1_123456789_2_n.jpg";
            "https://cdn.example/avatar.png";
            "https://cdn.example/v/3_123456789_4_n.jpg"]
           ["https://cdn.example/v/1_123456789_2_n.jpg";
            "https://cdn.example/v/3_123456789_4_n.jpg"]
           ["https://cdn.example/v/1_123456789_2_n.jpg";
            "https://cdn.example/v/3_123456789_4_n.jpg"]
           "https://cdn.example/v/1_123456789_2_n.jpg"
           "https://cdn.example/v/3_123456789_4_n.jpg").
  - vm_compute. left. reflexivity.
  - vm_compute. left. reflexivity.
  - simpl. auto.
  - simpl. auto.
  - reflexivity.
Defined.

(** ** Counting the posts *)

Lemma same_elements_length (a b : list string) :
  NoDup a -> NoDup b -> (forall x, In x a <-> In x b) ->
  List.length a = List.length b.
Proof.
  intros Ha Hb Hab. apply Permutation_length.
  now apply NoDup_Permutation.
Qed.

Lemma in_post_ids post_id images :
  In post_id (post_ids images) <->
  exists url, In url images /\ post_id_of url = Some post_id.
Proof.
  unfold post_ids. rewrite in_flat_map. split.
  - intros (url & Hin & Hk). exists url. split; [assumption|].
    destruct (post_id_of url) as [k|]; [|contradiction].
    destruct Hk as [->|[]]. reflexivity.
  - intros (url & Hin & Hk). exists url. split; [assumption|].
    rewrite Hk. now left.
Qed.

Lemma dict_get_post_id_iff post_id url images :
  post_id_of url = Some post_id ->
  dict_get post_id (build_groups images) <> None <->
  In post_id (post_ids images).
Proof.
  intros Hp. rewrite build_groups_get
    by (intros n; now apply (post_id_not_single url)).
  rewrite in_post_ids. split.
  - destruct (with_post_id post_id images) as [|v g] eqn:E;
      [intros H; now contradiction H|].
    intros _. exists v.
    assert (Hv : In v (with_post_id post_id images))
      by (rewrite E; now left).
    apply filter_In in Hv as [Hv Hid]. split; [assumption|].
    now apply has_post_id_true.
  - intros (v & Hv & Hid).
    assert (Hin : In v (with_post_id post_id images)).
    { apply filter_In. split; [assumption|]. now apply has_post_id_true. }
    destruct (with_post_id post_id images); [contradiction | discriminate].
Qed.

Lemma post_ids_snoc images url :
  post_ids (images ++ [url])
  = post_ids images ++ match post_id_of url with
                       | Some k => [k]
                       | None => []
                       end.
Proof. unfold post_ids. rewrite flat_map_app. simpl. now rewrite app_nil_r. Qed.

Lemma unmatched_snoc images url :
  unmatched (images ++ [url])
  = unmatched images ++ match post_id_of url with
                        | Some _ => []
                        | None => [url]
                        end.
Proof.
  unfold unmatched. rewrite filter_app. simpl.
  now destruct (post_id_of url).
Qed.

(** The number of groups: one per PostID met and one per URL without. *)
Lemma build_groups_length images :
  List.length (build_groups images)
  = List.length (nodup string_dec (post_ids images))
    + List.length (unmatched images).
Proof.
  induction images as [|url images IH] using rev_ind; [reflexivity|].
  rewrite build_groups_snoc, post_ids_snoc, unmatched_snoc.
  destruct (build_groups_ok images) as (_ & Hall & _).
  pose proof (group_step_cases (build_groups images) url Hall) as Hstep.
  destruct (post_id_of url) as [post_id|] eqn:Hp.
  - rewrite app_nil_r.
    pose proof (dict_get_post_id_iff post_id url images Hp) as Hiff.
    destruct (dict_get post_id (build_groups images)) as [g|] eqn:Hg.
    + destruct Hstep as (d1 & d2 & E & ->). rewrite E in IH.
      rewrite length_app in *. cbn [List.length] in *. rewrite IH.
      f_equal.
      assert (Hin : In post_id (post_ids images))
        by (apply Hiff; discriminate).
      apply same_elements_length; try apply NoDup_nodup.
      intros x. rewrite !nodup_In, in_app_iff. simpl.
      intuition (subst; assumption).
    + rewrite Hstep, length_app. cbn [List.length].
      assert (Hout : ~ In post_id (post_ids images)).
      { intros Hin. apply Hiff in Hin. now apply Hin. }
      assert (E : List.length
                    (nodup string_dec (post_ids images ++ [post_id]))
                  = S (List.length (nodup string_dec (post_ids images)))).
      { change (S (List.length (nodup string_dec (post_ids images))))
          with (List.length (post_id :: nodup string_dec (post_ids images))).
        apply same_elements_length.
        - apply NoDup_nodup.
        - constructor; [now rewrite nodup_In | apply NoDup_nodup].
        - intros x. simpl. rewrite !nodup_In, in_app_iff. simpl.
          intuition. }
      rewrite E, IH. lia.
  - rewrite Hstep, !length_app. cbn [List.length].
    rewrite !app_nil_r. rewrite IH. lia.
Qed.

Lemma filter_length_perm (f : string -> bool) l l' :
  Permutation l l' ->
  List.length (filter f l) = List.length (filter f l').
Proof.
  induction 1 as [|x l l' _ IH|x y l|l l' l'' _ IH1 _ IH2]; simpl.
  - reflexivity.
  - destruct (f x); simpl; congruence.
  - destruct (f x), (f y); reflexivity.
  - congruence.
Qed.

Lemma group_images_length_perm images images' :
  Permutation images images' ->
  List.length (group_images images) = List.length (group_images images').
Proof.
  intros Hperm. rewrite !group_images_map. unfold dict_values.
  rewrite !length_map, !build_groups_length. f_equal.
  - apply same_elements_length; try apply NoDup_nodup.
    intros x. rewrite !nodup_In, !in_post_ids.
    split; intros (url & Hin & Hp); exists url; split; try assumption.
    + now apply (Permutation_in _ Hperm).
    + now apply (Permutation_in _ (Permutation_sym Hperm)).
  - now apply filter_length_perm.
Qed.

(** X3.  The grouper returns one post for each different PostID met in
    the input and one for each element of the input without PostID; so
    the number of posts is the same for every rearrangement of the
    input. *)
Theorem post_count (images : list string) :
  List.length (group_images images)
  = List.length (nodup string_dec (post_ids images))
    + List.length (unmatched images) /\
  (forall images',
      Permutation images images' ->
      List.length (group_images images) = List.length (group_images images')).
Proof.
  split.
  - rewrite group_images_map. unfold dict_values. rewrite !length_map.
    apply build_groups_length.
  - apply group_images_length_perm.
Qed.

(** * Further properties of [dedupe_sizes] *)

Lemma dedupe_seen_snoc urls url :
  dedupe_seen (urls ++ [url]) = dedupe_step (dedupe_seen urls) url.
Proof. unfold dedupe_seen. now rewrite fold_left_app. Qed.

Lemma dict_get_Some_key {V : Type} k (v : V) (d : dict V) :
  dict_get k d = Some v -> In k (dict_keys d).
Proof.
  intros H. apply dict_get_In in H.
  change k with (fst (k, v)). now apply in_map.
Qed.

(** An iteration adds the key of its URL to the keys, and nothing else. *)
Lemma dedupe_step_keys seen_ids url k :
  In k (dict_keys (dedupe_step seen_ids url)) <->
  In k (dict_keys seen_ids) \/ k = key_of url.
Proof.
  assert (Hset : forall key v,
             In k (dict_keys (dict_set key v seen_ids)) <->
             In k (dict_keys seen_ids) \/ k = key).
  { intros key v. rewrite dict_keys_set.
    destruct (dict_get key seen_ids) as [v0|] eqn:E.
    - apply dict_get_Some_key in E. split; [auto|].
      intros [H| ->]; assumption.
    - rewrite in_app_iff. simpl. intuition. }
  unfold dedupe_step, key_of.
  destruct (img_id_of url) as [img_id|]; [|apply Hset].
  destruct (dict_get img_id seen_ids) as [[w p]|] eqn:E; [|apply Hset].
  destruct (p <? priority_of url)%nat; [apply Hset|].
  apply dict_get_Some_key in E. split; [auto|].
  intros [H| ->]; assumption.
Qed.

Lemma dedupe_seen_keys urls k :
  In k (dict_keys (dedupe_seen urls)) <-> In k (map key_of urls).
Proof.
  induction urls as [|url urls IH] using rev_ind; [reflexivity|].
  rewrite dedupe_seen_snoc, dedupe_step_keys, IH, map_app, in_app_iff.
  simpl. intuition.
Qed.

Lemma dedupe_sizes_keys urls :
  map key_of (dedupe_sizes urls) = dict_keys (dedupe_seen urls).
Proof.
  destruct (dedupe_seen_ok urls) as [_ Hall].
  unfold dedupe_sizes, dict_values, dict_keys. rewrite !map_map.
  apply map_ext_in. intros item Hin.
  rewrite Forall_forall in Hall. now apply Hall.
Qed.

(** X5.  [dedupe_sizes] keeps exactly one URL for each identity met, the
    identity of a URL being its canonical identifier or, when it has none,
    the URL itself: no URL is returned twice, no two returned URLs have
    the same identity, and every URL of the argument has a returned URL
    of its identity. *)
Theorem one_url_per_identity (urls : list string) :
  NoDup (dedupe_sizes urls) /\
  NoDup (map key_of (dedupe_sizes urls)) /\
  (forall url, In url urls ->
     exists kept, In kept (dedupe_sizes urls) /\ key_of kept = key_of url) /\
  (forall k, In k (map key_of (dedupe_sizes urls)) <->
             In k (map key_of urls)).
Proof.
  destruct (dedupe_seen_ok urls) as [Hnd _].
  repeat split.
  - apply dedupe_sizes_NoDup.
  - now rewrite dedupe_sizes_keys.
  - intros url Hin.
    assert (Hk : In (key_of url) (map key_of (dedupe_sizes urls))).
    { rewrite dedupe_sizes_keys. apply dedupe_seen_keys. now apply in_map. }
    apply in_map_iff in Hk as (kept & Hk & Hkept). eauto.
  - rewrite dedupe_sizes_keys. apply dedupe_seen_keys.
  - rewrite dedupe_sizes_keys. apply dedupe_seen_keys.
Qed.

(** X6.  URLs of pairwise different identities are all kept, in their
    order: on such a list [dedupe_sizes] changes nothing. *)
Theorem distinct_identities_kept (urls : list string) :
  NoDup (map key_of urls) -> dedupe_sizes urls = urls.
Proof.
  intros Hnd.
  pose (held := map (fun url => (key_of url, (url, 0))) urls).
  assert (Hurls : map fst (dict_values held) = urls).
  { unfold held, dict_values. rewrite !map_map. simpl. apply map_id. }
  assert (Hkeys : dict_keys held = map key_of urls).
  { unfold held, dict_keys. now rewrite map_map. }
  unfold dedupe_sizes, dedupe_seen. rewrite <- Hurls at 1.
  rewrite (dedupe_refile held []).
  - assumption.
  - unfold held. apply Forall_forall. intros item Hin.
    apply in_map_iff in Hin as (url & <- & _). reflexivity.
  - simpl. now rewrite Hkeys.
Qed.

Lemma distinct_identities_kept_witness :
  dedupe_sizes ["https://cdn.example/v/1_123456789_2_n.jpg";
                "https://cdn.example/v/s640x640/1_123456789_3_n.jpg";
                "https://cdn.example/avatar.png"]
  = ["https://cdn.example/v/1_123456789_2_n.jpg";
     "https://cdn.example/v/s640x640/1_123456789_3_n.jpg";
     "https://cdn.example/avatar.png"].
Proof.
  apply distinct_identities_kept.
  repeat constructor; simpl; intuition discriminate.
Defined.

(** ** The best variant is the one kept *)

(** With URLs that all hold a slash, an item of [seen_ids] filed under a
    slash-free key holds a URL with that canonical identifier, at its own
    priority. *)
Lemma dedupe_seen_shape urls :
  (forall url, In url urls -> has_slash url = true) ->
  forall k kept p,
    In (k, (kept, p)) (dedupe_seen urls) ->
    has_slash k = false ->
    img_id_of kept = Some k /\ p = priority_of kept.
Proof.
  intros Hslash.
  assert (H : Forall (fun item =>
                 (img_id_of (fst (snd item)) = Some (fst item) /\
                  snd (snd item) = priority_of (fst (snd item))) \/
                 has_slash (fst item) = true)
                (dedupe_seen urls)).
  { unfold dedupe_seen. apply fold_left_invariant; [|constructor].
    intros d url Hurl Hd. apply Forall_forall. intros [k [w q]] Hin.
    rewrite Forall_forall in Hd. unfold dedupe_step in Hin.
    destruct (img_id_of url) as [img_id|] eqn:Hid.
    - assert (Hset : In (k, (w, q))
                       (dict_set img_id (url, priority_of url) d) ->
                     (img_id_of w = Some k /\ q = priority_of w) \/
                     has_slash k = true).
      { intros Hi. apply dict_set_In in Hi as [E|Hi].
        - injection E as -> -> ->. now left.
        - apply (Hd _ Hi). }
      destruct (dict_get img_id d) as [[w0 q0]|]; [|now apply Hset].
      destruct (q0 <? priority_of url)%nat; [now apply Hset|].
      apply (Hd _ Hin).
    - apply dict_set_In in Hin as [E|Hi].
      + injection E as -> -> ->. right. simpl. now apply Hslash.
      + apply (Hd _ Hi). }
  intros k kept p Hin Hk. rewrite Forall_forall in H.
  destruct (H _ Hin) as [Hfirst|Hs]; simpl in *; [assumption|].
  congruence.
Qed.

Lemma best_variant_filed urls :
  (forall url, In url urls -> has_slash url = true) ->
  forall url k,
    In url urls -> img_id_of url = Some k ->
    exists kept p,
      dict_get k (dedupe_seen urls) = Some (kept, p) /\
      priority_of url <= p.
Proof.
  induction urls as [|w urls IH] using rev_ind; intros Hslash url k Hin Hid;
    [contradiction|].
  assert (Hslash' : forall u, In u urls -> has_slash u = true).
  { intros u Hu. apply Hslash. apply in_or_app. now left. }
  assert (Hw : has_slash w = true).
  { apply Hslash. apply in_or_app. right. now left. }
  specialize (IH Hslash').
  pose proof (img_id_no_slash _ _ Hid) as Hk.
  rewrite dedupe_seen_snoc. unfold dedupe_step.
  apply in_app_or in Hin as [Hin|[<-|[]]].
  - destruct (IH url k Hin Hid) as (kept & p & Hget & Hle).
    destruct (img_id_of w) as [k'|] eqn:Hidw.
    + destruct (String.eqb_spec k' k) as [->|Hne].
      * rewrite Hget.
        destruct (p <? priority_of w)%nat eqn:Hlt.
        -- apply Nat.ltb_lt in Hlt. exists w, (priority_of w).
           rewrite dict_get_set_same. split; [reflexivity | lia].
        -- eauto.
      * assert (Hset : forall v,
                   dict_get k (dict_set k' v (dedupe_seen urls))
                   = Some (kept, p))
          by (intros v; rewrite dict_get_set_other by congruence;
              assumption).
        destruct (dict_get k' (dedupe_seen urls)) as [[w0 q0]|];
          [|eauto].
        destruct (q0 <? priority_of w)%nat; eauto.
    + exists kept, p. split; [|assumption].
      rewrite dict_get_set_other; [assumption|]. intros ->. congruence.
  - rewrite Hid.
    destruct (dict_get k (dedupe_seen urls)) as [[w0 q0]|] eqn:Hget.
    + destruct (q0 <? priority_of w)%nat eqn:Hlt.
      * exists w, (priority_of w). rewrite dict_get_set_same.
        split; [reflexivity | lia].
      * apply Nat.ltb_ge in Hlt. eauto.
    + exists w, (priority_of w). rewrite dict_get_set_same.
      split; [reflexivity | lia].
Qed.

(** X7.  Among URLs that all hold a slash, a URL with a canonical
    identifier is never better than what is kept for that identifier:
    [dedupe_sizes] returns a URL with the same identifier whose priority
    is at least that of the URL. *)
Theorem best_variant_kept (urls : list string) (url img_id : string) :
  (forall u, In u urls -> has_slash u = true) ->
  In url urls ->
  img_id_of url = Some img_id ->
  exists kept,
    In kept (dedupe_sizes urls) /\
    img_id_of kept = Some img_id /\
    priority_of url <= priority_of kept.
Proof.
  intros Hslash Hin Hid.
  destruct (best_variant_filed urls Hslash url img_id Hin Hid)
    as (kept & p & Hget & Hle).
  apply dict_get_In in Hget.
  destruct (dedupe_seen_shape urls Hslash _ _ _ Hget
              (img_id_no_slash _ _ Hid)) as [Hk ->].
  exists kept. repeat split; [|assumption|assumption].
  unfold dedupe_sizes, dict_values. rewrite map_map.
  apply in_map_iff. now exists (img_id, (kept, priority_of kept)).
Qed.

Lemma best_variant_kept_witness :
  exists kept,
    In kept (dedupe_sizes
               ["https://cdn.example/v/s320x320/1_123456789_2_n.jpg";
                "https://cdn.example/v/s640x640/1_123456789_2_n.jpg"]) /\
    img_id_of kept = Some "1_123456789_2_n" /\
    priority_of "https://cdn.example/v/s320x320/1_123456789_2_n.jpg"
    <= priority_of kept.
Proof.
  apply (best_variant_kept
           ["https://cdn.example/v/s320x320/1_123456789_2_n.jpg";
            "https://cdn.example/v/s640x640/1_123456789_2_n.jpg"]
           "https://cdn.example/v/s320x320/1_123456789_2_n.jpg"
           "1_123456789_2_n").
  - intros u [<-|[<-|[]]]; reflexivity.
  - simpl. auto.
  - reflexivity.
Defined.

(** A string without slash has no canonical identifier. *)
Lemma no_slash_no_img_id s : has_slash s = false -> img_id_of s = None.
Proof.
  unfold img_id_of. induction s as [|c s IH]; [reflexivity|].
  simpl. intros H. apply orb_false_iff in H as [Hc Hs].
  unfold image_pattern_at at 1. cbn [Re.lit].
  rewrite Ascii.eqb_sym, Hc. cbn [obind]. now apply IH.
Qed.

(** X8.  The slash is what the previous property needs.  A string that
    is itself the canonical identifier of a URL is filed under the same
    key as that URL, so of the two only the one met last is returned. *)
Theorem bare_identifier_shares_the_key (url img_id : string) :
  img_id_of url = Some img_id ->
  dedupe_sizes [url; img_id] = [img_id] /\
  dedupe_sizes [img_id; url] = [url].
Proof.
  intros Hid.
  pose proof (no_slash_no_img_id _ (img_id_no_slash _ _ Hid)) as Hbare.
  pose proof (priority_of_range url) as Hp.
  unfold dedupe_sizes, dedupe_seen. cbn [fold_left].
  unfold dedupe_step. rewrite Hid, Hbare. cbn [dict_get dict_set].
  rewrite String.eqb_refl. split; [reflexivity|].
  assert (Hlt : (0 <? priority_of url)%nat = true)
    by (apply Nat.ltb_lt; lia).
  rewrite Hlt. reflexivity.
Qed.

Lemma bare_identifier_shares_the_key_witness :
  dedupe_sizes ["https://cdn.example/v/1_123456789_2_n.jpg";
                "1_123456789_2_n"]
  = ["1_123456789_2_n"].
Proof.
  apply (bare_identifier_shares_the_key
           "https://cdn.example/v/1_123456789_2_n.jpg" "1_123456789_2_n").
  reflexivity.
Defined.

(** X4.  A returned post holds no URL twice and no two URLs of the same
    identity; and when the input holds no URL twice, no URL is in two
    posts. *)
Theorem posts_hold_each_image_once (images : list string) :
  (forall post,
      In post (group_images images) ->
      NoDup post /\ NoDup (map key_of post)) /\
  (NoDup images -> NoDup (concat (group_images images))).
Proof.
  split.
  - intros post Hin. apply post_origin in Hin as (key & urls & _ & ->).
    split; [apply dedupe_sizes_NoDup|].
    rewrite dedupe_sizes_keys. now destruct (dedupe_seen_ok urls).
  - intros Hnd. destruct (build_groups_ok images) as (_ & _ & Hperm).
    rewrite group_images_map. apply concat_dedupe_NoDup.
    apply (Permutation_NoDup (Permutation_sym Hperm) Hnd).
Qed.

(** * Further properties of the patterns *)

Lemma search_head {A : Type} (f : string -> option A) s m :
  f s = Some m -> Re.search f s = Some m.
Proof. intros H. destruct s; simpl; now rewrite H. Qed.

Lemma digitsN_short n : forall d rest,
  Re.all_digits d = true -> String.length d < n ->
  starts_with_digit rest = false ->
  Re.digitsN n (d ++ rest) = None.
Proof.
  induction n as [|n IH]; intros d rest Hd Hlen Hrest; [lia|].
  destruct d as [|c d]; simpl in *.
  - destruct rest as [|c rest]; [reflexivity|]. simpl in Hrest.
    now rewrite Hrest.
  - apply andb_true_iff in Hd as [Hc Hd]. rewrite Hc.
    rewrite IH; [reflexivity | assumption | lia | assumption].
Qed.

Lemma no_slash_no_post_id s : has_slash s = false -> post_id_of s = None.
Proof.
  intros H. destruct (post_id_of s) as [k|] eqn:E; [|reflexivity].
  apply post_id_has_slash in E. congruence.
Qed.

(** A URL without PostID makes a post of its own. *)
Lemma unmatched_single_post images url :
  In url images -> post_id_of url = None -> In [url] (group_images images).
Proof.
  intros Hin Hp. apply in_split in Hin as (before & after & ->).
  pose proof (fallback_group_kept before url after Hp) as Hg.
  rewrite group_images_map. rewrite <- (dedupe_sizes_single url).
  apply in_map. apply in_map_iff. eexists. split; [|exact Hg]. reflexivity.
Qed.

(** X9.  The PostID is the first nine digits of the second run of
    digits: in a URL whose first slash followed by a digit opens a run of
    digits, an underscore and a run of at least nine digits, the PostID is
    made of the first nine of these, whatever follows them. *)
Theorem post_id_first_nine_digits (prefix run1 nine rest : string) :
  no_slash_digit prefix = true ->
  run1 <> EmptyString ->
  Re.all_digits run1 = true ->
  String.length nine = 9 ->
  Re.all_digits nine = true ->
  post_id_of (prefix ++ "/" ++ run1 ++ "_" ++ nine ++ rest) = Some nine.
Proof.
  intros Hp Hne H1 Hlen H9.
  rewrite post_id_past_prefix by (assumption || reflexivity).
  unfold post_id_of.
  rewrite (search_head group_pattern_at _ (run1, nine)); [reflexivity|].
  apply group_pattern_at_spec. exists rest. auto.
Qed.

Lemma post_id_first_nine_digits_witness :
  post_id_of ("https://cdn.example/v/t51.2885-15" ++ "/" ++ "447" ++ "_"
              ++ "123456789" ++ "0123_99_n.jpg")
  = Some "123456789".
Proof.
  apply post_id_first_nine_digits; (reflexivity || discriminate).
Defined.

(** X10.  A second run of fewer than nine digits gives no PostID: such a
    URL, with no other slash after the one that opens the first run, has
    no PostID and is returned as a post of its own. *)
Theorem short_run_no_post_id (prefix run1 run2 rest : string) :
  no_slash_digit prefix = true ->
  run1 <> EmptyString ->
  Re.all_digits run1 = true ->
  Re.all_digits run2 = true ->
  String.length run2 < 9 ->
  starts_with_digit rest = false ->
  has_slash rest = false ->
  let url := (prefix ++ "/" ++ run1 ++ "_" ++ run2 ++ rest)%string in
  post_id_of url = None /\
  (forall images, In url images -> In [url] (group_images images)).
Proof.
  intros Hp Hne H1 H2 Hlen Hrest Hslash url.
  assert (E : post_id_of url = None).
  { unfold url. rewrite post_id_past_prefix by (assumption || reflexivity).
    unfold post_id_of.
    change ("/" ++ run1 ++ "_" ++ run2 ++ rest)%string
      with (String "/" (run1 ++ String "_" (run2 ++ rest))).
    cbn [Re.search].
    assert (Hat : group_pattern_at
                    (String "/" (run1 ++ String "_" (run2 ++ rest)))
                  = None).
    { unfold group_pattern_at. cbn [Re.lit Ascii.eqb Bool.eqb obind].
      assert (E1 : Re.digits1 (run1 ++ String "_" (run2 ++ rest))
                   = Some (run1, String "_" (run2 ++ rest)%string))
        by (apply ReFacts.digits1_spec; auto).
      rewrite E1. cbn [Re.lit Ascii.eqb Bool.eqb obind].
      now rewrite digitsN_short. }
    rewrite Hat.
    fold (post_id_of (run1 ++ String "_" (run2 ++ rest))).
    apply no_slash_no_post_id.
    change (String "_" (run2 ++ rest)) with ("_" ++ (run2 ++ rest))%string.
    rewrite !has_slash_app.
    rewrite (all_digits_no_slash _ H1), (all_digits_no_slash _ H2), Hslash.
    reflexivity. }
  split; [assumption|].
  intros images Hin. now apply unmatched_single_post.
Qed.

Lemma short_run_no_post_id_witness :
  post_id_of ("https://cdn.example/v" ++ "/" ++ "447" ++ "_" ++ "12345678"
              ++ "_99_n.jpg") = None.
Proof.
  apply (short_run_no_post_id "https://cdn.example/v" "447" "12345678"
           "_99_n.jpg");
    (reflexivity || discriminate || (simpl; lia)).
Defined.

(** * Further properties of the collector *)

Lemma existsb_eqb_In img (s : list string) :
  existsb (String.eqb img) s = true <-> In img s.
Proof.
  rewrite existsb_exists. split.
  - intros (x & Hx & E). apply String.eqb_eq in E. now subst.
  - intros H. exists img. split; [assumption | apply String.eqb_refl].
Qed.

Lemma set_add_In img s url :
  In url (set_add img s) <-> In url s \/ url = img.
Proof.
  unfold set_add. destruct (existsb (String.eqb img) s) eqn:E.
  - apply existsb_eqb_In in E. split; [auto|]. intros [H| ->]; assumption.
  - rewrite in_app_iff. simpl. intuition.
Qed.

Lemma set_add_NoDup img s : NoDup s -> NoDup (set_add img s).
Proof.
  intros Hnd. unfold set_add.
  destruct (existsb (String.eqb img) s) eqn:E; [assumption|].
  apply NoDup_app; [assumption | repeat constructor; simpl; tauto |].
  intros a Ha [<-|[]]. apply existsb_eqb_In in Ha. congruence.
Qed.

Lemma add_all_In images : forall s url,
  In url (add_all images s) <-> In url s \/ In url images.
Proof.
  unfold add_all. induction images as [|img images IH]; intros s url; simpl.
  - tauto.
  - rewrite IH, set_add_In. intuition.
Qed.

Lemma add_all_NoDup images : forall s, NoDup s -> NoDup (add_all images s).
Proof.
  unfold add_all. induction images as [|img images IH]; intros s Hs; simpl.
  - assumption.
  - apply IH. now apply set_add_NoDup.
Qed.

Lemma add_all_length images : forall s,
  List.length s <= List.length (add_all images s).
Proof.
  unfold add_all. induction images as [|img images IH]; intros s; simpl.
  - lia.
  - specialize (IH (set_add img s)). unfold set_add in *.
    destruct (existsb (String.eqb img) s); [assumption|].
    rewrite length_app in IH. simpl in IH. lia.
Qed.

(** The set keeps its size exactly when the batch brings nothing new. *)
Lemma add_all_same_length images : forall s,
  List.length (add_all images s) = List.length s <-> incl images s.
Proof.
  induction images as [|img images IH]; intros s.
  - split; [intros _ x [] | reflexivity].
  - change (add_all (img :: images) s)
      with (add_all images (set_add img s)).
    unfold set_add. destruct (existsb (String.eqb img) s) eqn:E.
    + apply existsb_eqb_In in E. rewrite IH. split.
      * intros H x [<-|Hx]; [assumption | now apply H].
      * intros H x Hx. apply H. now right.
    + split.
      * intros H. pose proof (add_all_length images (s ++ [img])) as Hle.
        rewrite length_app in Hle. simpl in Hle. lia.
      * intros H. assert (Hin : In img s) by (apply H; now left).
        apply existsb_eqb_In in Hin. congruence.
Qed.

Lemma accumulated_In page n url :
  In url (accumulated page n) <-> exists i, i < n /\ In url (page i).
Proof.
  induction n as [|n IH]; simpl.
  - split; [contradiction | intros (i & Hi & _); lia].
  - rewrite add_all_In, IH. split.
    + intros [(i & Hi & Hin)|Hin]; [exists i | exists n]; split;
        (lia || assumption).
    + intros (i & Hi & Hin).
      destruct (Nat.eq_dec i n) as [->|Hne]; [now right|].
      left. exists i. split; [lia | assumption].
Qed.

Lemma accumulated_NoDup page n : NoDup (accumulated page n).
Proof.
  induction n as [|n IH]; simpl; [constructor|]. now apply add_all_NoDup.
Qed.

Lemma run_length_succ_le page n :
  run_length page (S n) <= S (run_length page n).
Proof.
  cbn [run_length].
  destruct (count_after page (S n) =? count_after page n)%nat; lia.
Qed.

(** Either no iteration within [m] ends a run of five, or there is a
    first one that does. *)
Lemma first_break page m :
  (forall j, j <= m -> run_length page j < 5) \/
  (exists n, n < m /\ (forall j, j <= n -> run_length page j < 5) /\
             5 <= run_length page (S n)).
Proof.
  induction m as [|m [IH|(n & Hn & Hrun & Hbreak)]].
  - left. intros j Hj. replace j with 0 by lia. simpl. lia.
  - destruct (le_lt_dec 5 (run_length page (S m))) as [Hge|Hlt].
    + right. exists m. repeat split; [lia | assumption | assumption].
    + left. intros j Hj.
      destruct (Nat.eq_dec j (S m)) as [->|Hne]; [assumption|].
      apply IH. lia.
  - right. exists n. repeat split; [lia | assumption | assumption].
Qed.

(** How the collector ends: at the budget, or in the first iteration
    that ends a run of five iterations without growth. *)
Lemma collect_cases page m :
  (collect page m = (state_after page m, false) /\
   forall j, j <= m -> run_length page j < 5) \/
  (exists n,
      n < m /\ collect page m = (state_at_break page n, true) /\
      (forall j, j <= n -> run_length page j < 5) /\
      run_length page (S n) = 5).
Proof.
  destruct (first_break page m) as [Hrun|(n & Hn & Hrun & Hbreak)].
  - left. split; [|assumption]. unfold collect.
    change init_state with (state_after page 0).
    rewrite scroll_loop_runs; [reflexivity|].
    intros j Hj. apply Hrun. lia.
  - right. exists n. repeat split; try assumption.
    + unfold collect. change init_state with (state_after page 0).
      replace m with (n + S (m - S n)) by lia.
      rewrite scroll_loop_breaks; [reflexivity | |assumption].
      intros j Hj. apply Hrun. lia.
    + pose proof (run_length_succ_le page n).
      assert (run_length page n < 5) by (apply Hrun; lia). lia.
Qed.

(** X11.  The collector stays within its budget and never leaves before
    its fifth iteration unless the budget is smaller; it scrolls after
    every iteration but the one that leaves through [break]; it leaves
    through [break] exactly when [no_new_count] has reached 5, which it
    never exceeds, and otherwise uses the whole budget. *)
Theorem collector_bounds (page : nat -> list string) (max_scrolls : nat) :
  let (st, by_break) := collect page max_scrolls in
  iterations st <= max_scrolls /\
  Nat.min 5 max_scrolls <= iterations st /\
  scrolls st + (if by_break then 1 else 0) = iterations st /\
  no_new_count st <= 5 /\
  (by_break = true <-> no_new_count st = 5) /\
  (by_break = false -> iterations st = max_scrolls).
Proof.
  destruct (collect_cases page max_scrolls)
    as [[-> Hrun]|(n & Hn & -> & Hrun & Hbreak)];
    cbn [state_after state_at_break iterations scrolls no_new_count].
  - assert (H : run_length page max_scrolls < 5) by (apply Hrun; lia).
    repeat split; try lia; intros; (discriminate || lia).
  - destruct (run_length_stagnant page (S n)) as [Hle _].
    repeat split; try lia; intros; (discriminate || reflexivity || lia).
Qed.

(** X12.  What the collector returns is the set of the URLs extracted in
    the iterations it has entered, the one that leaves through [break]
    included: each of them is in it, once, and nothing else is. *)
Theorem collector_returns_what_it_saw
  (page : nat -> list string) (max_scrolls : nat) :
  let (st, by_break) := collect page max_scrolls in
  all_images st = accumulated page (iterations st) /\
  NoDup (all_images st) /\
  (forall url,
      In url (all_images st) <->
      exists i, i < iterations st /\ In url (page i)).
Proof.
  destruct (collect_cases page max_scrolls)
    as [[-> _]|(n & _ & -> & _)];
    cbn [state_after state_at_break iterations all_images];
    (split; [reflexivity|]); (split; [apply accumulated_NoDup|]);
    intros url; apply accumulated_In.
Qed.

(** X13.  The test on the size of the set is a test for new URLs: an
    iteration leaves the size as it was exactly when every URL it
    extracts was in the set before. *)
Theorem stagnant_iff_nothing_new (page : nat -> list string) (n : nat) :
  stagnant page (S n) <->
  (forall url, In url (page n) -> In url (accumulated page n)).
Proof.
  unfold stagnant, count_after. rewrite Nat.sub_succ, Nat.sub_0_r.
  cbn [accumulated]. apply add_all_same_length.
Qed.

(** X14.  Without five iterations in a row that bring nothing new, the
    collector uses its whole budget: it enters [max_scrolls] iterations,
    scrolls after each of them and does not leave through [break]. *)
Theorem budget_exhausted (page : nat -> list string) (max_scrolls : nat) :
  (forall t, t + 5 <= max_scrolls -> ~ stagnates_from page t) ->
  let (st, by_break) := collect page max_scrolls in
  by_break = false /\
  iterations st = max_scrolls /\
  scrolls st = max_scrolls /\
  all_images st = accumulated page max_scrolls.
Proof.
  intros Hnever.
  destruct (collect_cases page max_scrolls)
    as [[-> _]|(n & Hn & _ & _ & Hbreak)].
  - cbn [state_after iterations scrolls all_images]. auto.
  - exfalso. destruct (run_length_stagnant page (S n)) as [Hle Hrun].
    apply (Hnever (S n - 5)); [lia|].
    intros j Hj. apply Hrun. lia.
Qed.

Lemma budget_exhausted_witness :
  let (st, by_break) := collect example_page 6 in
  by_break = false /\
  iterations st = 6 /\
  scrolls st = 6 /\
  all_images st = accumulated example_page 6.
Proof.
  apply (budget_exhausted example_page 6).
  intros t Ht Hstag.
  assert (Hcases : t = 0 \/ t = 1) by lia.
  destruct Hcases as [->| ->].
  - assert (H : stagnant example_page 1) by (apply Hstag; lia).
    discriminate H.
  - assert (H : stagnant example_page 2) by (apply Hstag; lia).
    discriminate H.
Defined.

(** ** What reaches the grouper *)

Lemma group_images_incl images post url :
  In post (group_images images) -> In url post -> In url images.
Proof.
  intros Hpost Hurl.
  destruct (build_groups_ok images) as (_ & _ & Hperm).
  rewrite group_images_map in Hpost.
  apply in_map_iff in Hpost as (g & <- & Hg).
  apply dedupe_sizes_incl in Hurl.
  apply (Permutation_in _ Hperm). apply in_concat. eauto.
Qed.

Lemma keep_src_spec src :
  keep_src src = true <->
  Re.contains "cdninstagram.com" src = true /\
  Re.contains "s150x150" src = false /\
  Re.contains "s64x64" src = false /\
  Re.contains "s32x32" src = false.
Proof.
  unfold keep_src. rewrite !andb_true_iff, !negb_true_iff. tauto.
Qed.

(** X15.  Every URL the collector gathers from the page was the source
    of an image in an iteration it entered, names the host
    cdninstagram.com and bears none of the markers s150x150, s64x64 and
    s32x32.  So [dedupe_sizes] never gives priority 1 to a gathered URL:
    in the posts made of them every URL has priority 2 at least. *)
Theorem gathered_urls_pass_the_filter
  (dom : nat -> list string) (max_scrolls : nat) :
  let (st, by_break) := collect_from_dom dom max_scrolls in
  (forall url,
      In url (all_images st) ->
      (exists i, i < iterations st /\ In url (dom i)) /\
      keep_src url = true /\
      2 <= priority_of url) /\
  (forall post url,
      In post (group_images (all_images st)) -> In url post ->
      2 <= priority_of url).
Proof.
  assert (Hprio : forall url, keep_src url = true -> 2 <= priority_of url).
  { intros url H. apply keep_src_spec in H as (_ & H150 & _).
    unfold priority_of. rewrite H150.
    destruct (Re.contains "s320x320" url), (Re.contains "s640x640" url);
      lia. }
  assert (Hacc : forall n url,
             In url (accumulated (fun i => extract_images (dom i)) n) ->
             (exists i, i < n /\ In url (dom i)) /\ keep_src url = true).
  { intros n url H. apply accumulated_In in H as (i & Hi & Hin).
    apply filter_In in Hin as [Hin Hkeep]. split; [eauto | assumption]. }
  unfold collect_from_dom.
  destruct (collect_cases (fun i => extract_images (dom i)) max_scrolls)
    as [[-> _]|(n & _ & -> & _)];
    cbn [state_after state_at_break iterations all_images].
  - split.
    + intros url H. destruct (Hacc _ _ H) as [Hi Hk]. auto.
    + intros post url Hpost Hurl.
      apply Hprio. apply (Hacc max_scrolls).
      now apply (group_images_incl _ post).
  - split.
    + intros url H. destruct (Hacc _ _ H) as [Hi Hk]. auto.
    + intros post url Hpost Hurl.
      apply Hprio. apply (Hacc (S n)).
      now apply (group_images_incl _ post).
Qed.

(** * Further properties of the result *)

Lemma nonempty_posts_length (posts : list (list string)) :
  (forall post, In post posts -> post <> []) ->
  List.length posts <= List.length (concat posts).
Proof.
  induction posts as [|post posts IH]; intros Hne; simpl; [lia|].
  rewrite length_app.
  assert (H : post <> []) by (apply Hne; now left).
  assert (IH' : List.length posts <= List.length (concat posts))
    by (apply IH; intros q Hq; apply Hne; now right).
  destruct post; [contradiction | simpl; lia].
Qed.

Lemma group_images_length_le images :
  List.length (group_images images) <= List.length images.
Proof.
  destruct (build_groups_ok images) as (_ & _ & Hperm).
  rewrite <- (Permutation_length Hperm).
  etransitivity; [apply nonempty_posts_length|].
  - intros post Hin. rewrite group_images_filter in Hin.
    apply filter_In in Hin as [_ Hne]. now destruct post.
  - rewrite group_images_map. apply concat_dedupe_length.
Qed.

(** X16.  In the record, [total_posts] is the length of [posts], it is at
    most [total_images], and it is 0 exactly when [total_images] is;
    every URL under [posts] is one of the images counted. *)
Theorem record_counts (username scraped_at : string) (images : list string) :
  let result := scrape_result username scraped_at images in
  exists total_images total_posts posts,
    dict_get "total_images" result = Some (JNumber total_images) /\
    dict_get "total_posts" result = Some (JNumber total_posts) /\
    dict_get "posts" result
    = Some (JArray (map (fun post => JArray (map JString post)) posts)) /\
    total_images = List.length images /\
    total_posts = List.length posts /\
    total_posts <= total_images /\
    (total_posts = 0 <-> total_images = 0) /\
    (forall post url, In post posts -> In url post -> In url images).
Proof.
  cbv zeta. exists (List.length images), (List.length (group_images images)),
    (group_images images).
  repeat split.
  - apply group_images_length_le.
  - intros H. destruct images as [|url images]; [reflexivity|]. exfalso.
    rewrite group_images_map in H. unfold dict_values in H.
    rewrite !length_map in H. apply length_zero_iff_nil in H.
    destruct (build_groups_ok (url :: images)) as (_ & _ & Hperm).
    rewrite H in Hperm. simpl in Hperm.
    now apply Permutation_nil in Hperm.
  - intros H. apply length_zero_iff_nil in H. now subst.
  - apply group_images_incl.
Qed.

(** X17.  The counts of the record of a run do not depend on the order in
    which the set of gathered URLs is listed for the grouper:
    [total_images] is the size of the set and [total_posts] is the same
    for every listing. *)
Theorem run_counts_order_independent
  (page : nat -> list string) (listing1 listing2 : list string -> list string)
  (username scraped_at : string) (max_scrolls : nat) :
  (forall s, Permutation (listing1 s) s) ->
  (forall s, Permutation (listing2 s) s) ->
  let run1 := scrape_threads page listing1 username scraped_at max_scrolls in
  let run2 := scrape_threads page listing2 username scraped_at max_scrolls in
  dict_get "total_images" run1 = dict_get "total_images" run2 /\
  dict_get "total_posts" run1 = dict_get "total_posts" run2 /\
  dict_get "total_images" run1
  = Some (JNumber (List.length (all_images (fst (collect page max_scrolls))))).
Proof.
  intros H1 H2. cbv zeta. unfold scrape_threads.
  destruct (collect page max_scrolls) as [st by_break].
  unfold scrape_result. cbn [dict_get String.eqb Ascii.eqb Bool.eqb fst].
  rewrite (Permutation_length (H1 (all_images st))).
  rewrite (Permutation_length (H2 (all_images st))).
  repeat split. do 2 f_equal.
  apply group_images_length_perm.
  etransitivity; [apply H1 | symmetry; apply H2].
Qed.

Lemma run_counts_order_independent_witness :
  dict_get "total_posts"
    (scrape_threads example_page (fun s => s) "someone" "2024-05-01T12:00:00" 30)
  = dict_get "total_posts"
      (scrape_threads example_page (@rev string) "someone"
         "2024-05-01T12:00:00" 30).
Proof.
  apply (run_counts_order_independent example_page (fun s => s) (@rev string)).
  - intros s. apply Permutation_refl.
  - intros s. apply Permutation_sym, Permutation_rev.
Defined.

(** * The user name *)

(** X18.  The user name passed on has no "@" left, wherever it stood in
    the argument; an argument without "@" is passed on as it is, and
    taking the "@" out twice changes nothing more. *)
Theorem strip_at_removes_every_at (s : string) :
  has_char "@" (strip_at s) = false /\
  strip_at (strip_at s) = strip_at s /\
  (has_char "@" s = false -> strip_at s = s) /\
  (forall a b, strip_at (a ++ b) = (strip_at a ++ strip_at b)%string) /\
  String.length (strip_at s) <= String.length s.
Proof.
  assert (Hno : forall t, has_char "@" (strip_at t) = false).
  { induction t as [|c t IH]; [reflexivity|]. simpl.
    destruct (Ascii.eqb c "@") eqn:E; [assumption|].
    simpl. now rewrite E. }
  assert (Hid : forall t, has_char "@" t = false -> strip_at t = t).
  { induction t as [|c t IH]; [reflexivity|]. simpl.
    intros H. apply orb_false_iff in H as [Hc Ht].
    rewrite Hc. now rewrite IH. }
  repeat split.
  - apply Hno.
  - apply Hid, Hno.
  - apply Hid.
  - intros a b. induction a as [|c a IH]; [reflexivity|]. simpl.
    destruct (Ascii.eqb c "@"); [assumption|]. simpl. now rewrite IH.
  - induction s as [|c s IH]; [reflexivity|]. simpl.
    destruct (Ascii.eqb c "@"); simpl; lia.
Qed.
